(** * A shallow embedding of the ride-sharing simulation

    Python objects (riders and drivers) are mutable and shared between the
    dispatcher's lists and the pending events, so they are modelled as
    references ([nat]) into a heap: a total function from references to
    records, updated with [upd].  List membership [x in l] and
    [l.index(x)] follow Python: an element matches when it is the same
    object or when [__eq__] says so. *)

From Stdlib Require Import ZArith List Ascii String Bool Lia.
From Stdlib Require Import Sorting.Permutation Sorting.Sorted.
Import ListNotations.
Open Scope Z_scope.

(** ** Heaps of mutable objects *)

Definition heap (A : Type) := nat -> A.

Definition upd {A} (h : heap A) (r : nat) (v : A) : heap A :=
  fun x => if Nat.eqb x r then v else h x.

(** Python exceptions that the modelled code can raise. *)
Inductive PyExc := ZeroDivisionError | EmptyQueueError | IndexError | AttributeError.

Inductive PyResult (A : Type) :=
| Ok (a : A)
| Raise (e : PyExc).
Arguments Ok {A} a.
Arguments Raise {A} e.

(** ** location.py *)

Record Location := mkLocation { row : Z; column : Z }.

Definition location_eqb (a b : Location) : bool :=
  (row a =? row b) && (column a =? column b).

Definition opt_location_eqb (a b : option Location) : bool :=
  match a, b with
  | Some x, Some y => location_eqb x y
  | None, None => true
  | _, _ => false
  end.

Definition manhattan_distance (origin destination : Location) : Z :=
  Z.abs (row origin - row destination) + Z.abs (column origin - column destination).

(** Python's [round(p / q)] for integers [p] and [q <> 0]: round half to
    even of the quotient.  The float quotient [p / q] is modelled by the
    exact rational one; the two round to the same integer whenever
    [|p| < 2^52], which covers every distance of the simulation's grids. *)
Definition round_half_even_pos (p q : Z) : Z :=
  let fl := p / q in
  let r := p mod q in
  match Z.compare (2 * r) q with
  | Lt => fl
  | Gt => fl + 1
  | Eq => if Z.even fl then fl else fl + 1
  end.

Definition py_round_div (p q : Z) : Z :=
  if q <? 0 then round_half_even_pos (- p) (- q) else round_half_even_pos p q.

(** ** rider.py *)

Inductive Status := WAITING | CANCELLED | SATISFIED.

Definition status_eqb (a b : Status) : bool :=
  match a, b with
  | WAITING, WAITING | CANCELLED, CANCELLED | SATISFIED, SATISFIED => true
  | _, _ => false
  end.

Record Rider := mkRider {
  r_identifier : string;
  r_origin : Location;
  r_destination : Location;
  r_status : Status;
  r_patience : Z }.

(** [Rider.__eq__]: every field is compared. *)
Definition rider_eqb (a b : Rider) : bool :=
  String.eqb (r_identifier a) (r_identifier b)
  && location_eqb (r_origin a) (r_origin b)
  && location_eqb (r_destination a) (r_destination b)
  && status_eqb (r_status a) (r_status b)
  && (r_patience a =? r_patience b).

Definition set_status (r : Rider) (s : Status) : Rider :=
  mkRider (r_identifier r) (r_origin r) (r_destination r) s (r_patience r).

(** ** driver.py *)

Record Driver := mkDriver {
  d_identifier : string;
  d_location : option Location;
  d_speed : Z;
  d_destination : option Location;
  d_is_idle : bool }.

(** [Driver(identifier, location, speed)]. *)
Definition new_driver (identifier : string) (location : Location) (speed : Z) : Driver :=
  mkDriver identifier (Some location) speed None true.

(** [Driver.__eq__]: every field is compared. *)
Definition driver_eqb (a b : Driver) : bool :=
  String.eqb (d_identifier a) (d_identifier b)
  && opt_location_eqb (d_location a) (d_location b)
  && (d_speed a =? d_speed b)
  && Bool.eqb (d_is_idle a) (d_is_idle b)
  && opt_location_eqb (d_destination a) (d_destination b).

Definition get_travel_time (d : Driver) (destination : option Location) : Z :=
  match destination, d_location d with
  | Some dst, Some loc =>
      if negb (d_speed d =? 0)
      then py_round_div (manhattan_distance loc dst) (d_speed d)
      else 0
  | _, _ => 0
  end.

(** [start_drive(location)]: returns the new driver and the travel time. *)
Definition start_drive (d : Driver) (location : Location) : Driver * Z :=
  let d1 := mkDriver (d_identifier d) (d_location d) (d_speed d) (d_destination d) false in
  let time := get_travel_time d1 (Some location) in
  (mkDriver (d_identifier d1) (d_location d1) (d_speed d1) (Some location) false, time).

(** [end_drive()]: [self.is_idle, self.location = False, self.destination]. *)
Definition end_drive (d : Driver) : Driver :=
  mkDriver (d_identifier d) (d_destination d) (d_speed d) (d_destination d) false.

(** [start_ride(rider)]. *)
Definition start_ride (d : Driver) (r : Rider) : Driver * Z :=
  let d1 := mkDriver (d_identifier d) (d_location d) (d_speed d)
                     (Some (r_destination r)) false in
  (d1, get_travel_time d1 (Some (r_destination r))).

(** [end_ride()]: [self.is_idle, self.location, self.destination =
    True, self.destination, None]. *)
Definition end_ride (d : Driver) : Driver :=
  mkDriver (d_identifier d) (d_destination d) (d_speed d) None true.

(** ** Python list operations on lists of object references *)

Section PyList.
Context {A : Type} (h : heap A) (eqb : A -> A -> bool).

(** One comparison of [x in l] and [l.index(x)]: identity, then [__eq__]. *)
Definition py_same (x e : nat) : bool := Nat.eqb e x || eqb (h e) (h x).

(** [x in l]. *)
Definition py_in (x : nat) (l : list nat) : bool := existsb (py_same x) l.

(** [l.pop(l.index(x))], when [x in l]. *)
Fixpoint py_remove (x : nat) (l : list nat) : list nat :=
  match l with
  | [] => []
  | e :: l' => if py_same x e then l' else e :: py_remove x l'
  end.

End PyList.

(** ** dispatcher.py *)

Record Dispatcher := mkDispatcher {
  waiting : list nat;     (* self.rider[WAITING] *)
  cancelled : list nat;   (* self.rider[CANCELLED] *)
  satisfied : list nat;   (* self.rider[SATISFIED] *)
  idle : list nat;        (* self.driver['idle'] *)
  total : list nat }.     (* self.driver['total'] *)

Definition empty_dispatcher : Dispatcher := mkDispatcher [] [] [] [] [].

(** ** monitor.py *)

Inductive Category := RIDER | DRIVER.
Inductive Description := REQUEST | CANCEL | PICKUP | DROPOFF.

Definition description_eqb (a b : Description) : bool :=
  match a, b with
  | REQUEST, REQUEST | CANCEL, CANCEL | PICKUP, PICKUP | DROPOFF, DROPOFF => true
  | _, _ => false
  end.

Record Activity := mkActivity {
  a_time : Z;
  a_description : Description;
  a_id : string;
  a_location : option Location }.

(** [self._activities]: for each category a dict from identifiers to lists
    of activities, in insertion order. *)
Record Monitor := mkMonitor {
  m_rider : list (string * list Activity);
  m_driver : list (string * list Activity) }.

Definition empty_monitor : Monitor := mkMonitor [] [].

(** [d.setdefault(k, []).append(a)] on an insertion-ordered dict. *)
Fixpoint dict_append (k : string) (a : Activity) (d : list (string * list Activity))
  : list (string * list Activity) :=
  match d with
  | [] => [(k, [a])]
  | (k', acts) :: d' =>
      if String.eqb k k' then (k', acts ++ [a]) :: d' else (k', acts) :: dict_append k a d'
  end.

Definition notify (m : Monitor) (timestamp : Z) (category : Category)
    (description : Description) (identifier : string) (location : option Location)
    : Monitor :=
  let a := mkActivity timestamp description identifier location in
  match category with
  | RIDER => mkMonitor (dict_append identifier a (m_rider m)) (m_driver m)
  | DRIVER => mkMonitor (m_rider m) (dict_append identifier a (m_driver m))
  end.

(** The values of the report: each a float quotient, kept as the pair
    (numerator, denominator) of the division the code performs. *)
Record Report := mkReport {
  rider_wait_time : Z * Z;
  driver_total_distance : Z * Z;
  driver_ride_distance : Z * Z }.

(** [_average_wait_time]: the loop accumulates [(wait_time, count)]. *)
Fixpoint wait_loop (vals : list (list Activity)) (acc : Z * Z) : Z * Z :=
  match vals with
  | [] => acc
  | acts :: vals' =>
      match acts with
      | a0 :: a1 :: _ => wait_loop vals' (fst acc + (a_time a1 - a_time a0), snd acc + 1)
      | _ => wait_loop vals' acc
      end
  end.

Definition _average_wait_time (m : Monitor) : PyResult (Z * Z) :=
  let '(wait_time, count) := wait_loop (map snd (m_rider m)) (0, 0) in
  if negb (count =? 0) then Ok (wait_time, count) else Raise ZeroDivisionError.

(** [manhattan_distance(a.location, b.location)] on two recorded
    activities: a [None] location has no [row] attribute. *)
Definition activity_distance (a b : Activity) : PyResult Z :=
  match a_location a, a_location b with
  | Some x, Some y => Ok (manhattan_distance x y)
  | _, _ => Raise AttributeError
  end.

(** The inner loop of [_average_total_distance] over one driver. *)
Fixpoint path_distance (acts : list Activity) : PyResult Z :=
  match acts with
  | a :: ((b :: _) as rest) =>
      match activity_distance a b with
      | Ok d => match path_distance rest with Ok s => Ok (d + s) | Raise e => Raise e end
      | Raise e => Raise e
      end
  | _ => Ok 0
  end.

Fixpoint total_loop (vals : list (list Activity)) (acc : Z * Z) : PyResult (Z * Z) :=
  match vals with
  | [] => Ok acc
  | acts :: vals' =>
      if (2 <=? Z.of_nat (List.length acts))%Z then
        match path_distance acts with
        | Ok s => total_loop vals' (fst acc + s, snd acc + 1)
        | Raise e => Raise e
        end
      else total_loop vals' acc
  end.

Definition _average_total_distance (m : Monitor) : PyResult (Z * Z) :=
  match total_loop (map snd (m_driver m)) (0, 0) with
  | Ok (total_dist, count) =>
      if negb (count =? 0) then Ok (total_dist, count) else Raise ZeroDivisionError
  | Raise e => Raise e
  end.

(** The inner loop of [_average_ride_distance] over one driver. *)
Fixpoint ride_path (acts : list Activity) : PyResult Z :=
  match acts with
  | a :: ((b :: _) as rest) =>
      if description_eqb (a_description a) PICKUP && description_eqb (a_description b) DROPOFF
      then match activity_distance a b with
           | Ok d => match ride_path rest with Ok s => Ok (d + s) | Raise e => Raise e end
           | Raise e => Raise e
           end
      else ride_path rest
  | _ => Ok 0
  end.

Fixpoint ride_loop (vals : list (list Activity)) (acc : Z) : PyResult Z :=
  match vals with
  | [] => Ok acc
  | acts :: vals' =>
      match ride_path acts with
      | Ok s => ride_loop vals' (acc + s)
      | Raise e => Raise e
      end
  end.

Definition _average_ride_distance (m : Monitor) : PyResult (Z * Z) :=
  match ride_loop (map snd (m_driver m)) 0 with
  | Ok ride_dist =>
      let n := Z.of_nat (List.length (m_driver m)) in
      if negb (n =? 0) then Ok (ride_dist, n) else Raise ZeroDivisionError
  | Raise e => Raise e
  end.

(** [report()]: the dict literal evaluates its values left to right. *)
Definition report (m : Monitor) : PyResult Report :=
  match _average_wait_time m with
  | Raise e => Raise e
  | Ok w =>
      match _average_total_distance m with
      | Raise e => Raise e
      | Ok t =>
          match _average_ride_distance m with
          | Raise e => Raise e
          | Ok r => Ok (mkReport w t r)
          end
      end
  end.

(** ** The mutable world: object heaps, the dispatcher and the monitor *)

Record World := mkWorld {
  riders : heap Rider;
  drivers : heap Driver;
  dispatcher : Dispatcher;
  monitor : Monitor }.

Definition set_dispatcher (w : World) (d : Dispatcher) : World :=
  mkWorld (riders w) (drivers w) d (monitor w).
Definition set_monitor (w : World) (m : Monitor) : World :=
  mkWorld (riders w) (drivers w) (dispatcher w) m.
Definition set_rider (w : World) (r : nat) (v : Rider) : World :=
  mkWorld (upd (riders w) r v) (drivers w) (dispatcher w) (monitor w).
Definition set_driver (w : World) (d : nat) (v : Driver) : World :=
  mkWorld (riders w) (upd (drivers w) d v) (dispatcher w) (monitor w).

Definition rider_in (w : World) := py_in (riders w) rider_eqb.
Definition rider_remove (w : World) := py_remove (riders w) rider_eqb.
Definition driver_in (w : World) := py_in (drivers w) driver_eqb.

(** [min(eta)] on a non-empty list. *)
Definition py_min (l : list Z) : Z :=
  match l with
  | [] => 0
  | x :: l' => fold_left Z.min l' x
  end.

(** [Dispatcher.request_driver].  The [while] loop returns in its first
    iteration: the inner [for] meets a driver whose travel time is the
    minimum (lemma [request_driver_find]); its [None] branch, where the
    Python loop would spin, is never taken. *)
Definition eta (w : World) (rider d : nat) : Z :=
  get_travel_time (drivers w d) (Some (r_origin (riders w rider))).
Arguments eta : simpl never.

Definition request_driver (w : World) (rider : nat) : World * option nat :=
  let disp := dispatcher w in
  let w' := set_dispatcher w
              (mkDispatcher (waiting disp ++ [rider]) (cancelled disp) (satisfied disp)
                            (idle disp) (total disp)) in
  let tt := eta w rider in
  match idle disp with
  | [] => (w', None)
  | _ :: _ =>
      let min_eta := py_min (map tt (idle disp)) in
      (w', find (fun d => tt d =? min_eta) (idle disp))
  end.

(** [Dispatcher.request_rider]. *)
Definition request_rider (w : World) (driver : nat) : World * option nat :=
  let disp := dispatcher w in
  let disp' :=
    if negb (driver_in w driver (total disp)) then
      mkDispatcher (waiting disp) (cancelled disp) (satisfied disp)
        (if d_is_idle (drivers w driver) then idle disp ++ [driver] else idle disp)
        (total disp ++ [driver])
    else disp in
  (set_dispatcher w disp',
   match waiting disp' with [] => None | r :: _ => Some r end).

(** [Dispatcher.cancel_ride]. *)
Definition cancel_ride (w : World) (rider : nat) : Dispatcher :=
  let disp := dispatcher w in
  if rider_in w rider (waiting disp) then
    mkDispatcher (rider_remove w rider (waiting disp)) (cancelled disp ++ [rider])
                 (satisfied disp) (idle disp) (total disp)
  else disp.

(** [Dispatcher.end_successful_ride]. *)
Definition end_successful_ride (w : World) (rider : nat) : Dispatcher :=
  let disp := dispatcher w in
  if rider_in w rider (waiting disp) then
    mkDispatcher (rider_remove w rider (waiting disp)) (cancelled disp)
                 (satisfied disp ++ [rider]) (idle disp) (total disp)
  else disp.

(** ** event.py *)

Inductive Event :=
| RiderRequest (timestamp : Z) (rider : nat)
| DriverRequest (timestamp : Z) (driver : nat)
| Cancellation (timestamp : Z) (rider : nat)
| Pickup (timestamp : Z) (rider driver : nat)
| Dropoff (timestamp : Z) (rider driver : nat).

Definition timestamp (e : Event) : Z :=
  match e with
  | RiderRequest t _ | DriverRequest t _ | Cancellation t _
  | Pickup t _ _ | Dropoff t _ _ => t
  end.

Definition notify_w (w : World) (t : Z) (c : Category) (desc : Description)
    (identifier : string) (location : option Location) : World :=
  set_monitor w (notify (monitor w) t c desc identifier location).

(** [RiderRequest.do]. *)
Definition rider_request_do (t : Z) (r : nat) (w : World) : World * list Event :=
  let w1 := notify_w w t RIDER REQUEST (r_identifier (riders w r))
                     (Some (r_origin (riders w r))) in
  let '(w2, found) := request_driver w1 r in
  let cancel := Cancellation (t + r_patience (riders w2 r)) r in
  match found with
  | Some d =>
      let '(d', travel_time) := start_drive (drivers w2 d) (r_origin (riders w2 r)) in
      (set_driver w2 d d', [Pickup (t + travel_time) r d; cancel])
  | None => (w2, [cancel])
  end.

(** [DriverRequest.do]. *)
Definition driver_request_do (t : Z) (d : nat) (w : World) : World * list Event :=
  let w1 := notify_w w t DRIVER REQUEST (d_identifier (drivers w d))
                     (d_location (drivers w d)) in
  let '(w2, found) := request_rider w1 d in
  match found with
  | Some r =>
      let '(d', travel_time) := start_drive (drivers w2 d) (r_origin (riders w2 r)) in
      (set_driver w2 d d', [Pickup (t + travel_time) r d])
  | None => (w2, [])
  end.

(** [Cancellation.do]: the status is set before [cancel_ride] runs. *)
Definition cancellation_do (t : Z) (r : nat) (w : World) : World * list Event :=
  let w1 := notify_w w t RIDER CANCEL (r_identifier (riders w r))
                     (Some (r_origin (riders w r))) in
  if negb (rider_in w1 r (satisfied (dispatcher w1))) then
    let w2 := set_rider w1 r (set_status (riders w1 r) CANCELLED) in
    (set_dispatcher w2 (cancel_ride w2 r), [])
  else (w1, []).

(** [Pickup.do]. *)
Definition pickup_do (t : Z) (r d : nat) (w : World) : World * list Event :=
  let w1 := set_driver w d (end_drive (drivers w d)) in
  let w2 := notify_w w1 t RIDER PICKUP (r_identifier (riders w1 r))
                     (Some (r_destination (riders w1 r))) in
  let w3 := notify_w w2 t DRIVER PICKUP (d_identifier (drivers w2 d))
                     (d_location (drivers w2 d)) in
  if negb (rider_in w3 r (cancelled (dispatcher w3))) then
    let '(d', travel_time) := start_ride (drivers w3 d) (riders w3 r) in
    let w4 := set_driver w3 d d' in
    let w5 := set_rider w4 r (set_status (riders w4 r) SATISFIED) in
    (set_dispatcher w5 (end_successful_ride w5 r), [Dropoff (t + travel_time) r d])
  else (w3, [DriverRequest t d]).

(** [Dropoff.do]. *)
Definition dropoff_do (t : Z) (r d : nat) (w : World) : World * list Event :=
  let w1 := set_driver w d (end_ride (drivers w d)) in
  let w2 := notify_w w1 t DRIVER DROPOFF (d_identifier (drivers w1 d))
                     (d_location (drivers w1 d)) in
  (set_dispatcher w2 (end_successful_ride w2 r), [DriverRequest t d]).

(** [Event.do], dispatched on the variant. *)
Definition do_event (e : Event) (w : World) : World * list Event :=
  match e with
  | RiderRequest t r => rider_request_do t r w
  | DriverRequest t d => driver_request_do t d w
  | Cancellation t r => cancellation_do t r w
  | Pickup t r d => pickup_do t r d w
  | Dropoff t r d => dropoff_do t r d w
  end.

(** ** container.PriorityQueue *)

Section PriorityQueue.
Context {A : Type} (key : A -> Z).

(** Modelled from the spec: [container.PriorityQueue] (the module
    [container], imported by simulation.py, is not among the repository's
    files).  The spec orders the queue by timestamp ([Event.__lt__]
    compares timestamps only) and asks that of two items with the same
    timestamp the one added earlier is removed first: the queue is a list
    kept in that order, [add] inserts after every item whose key is not
    larger, [remove] pops the head and fails on an empty queue. *)
Fixpoint pq_add (x : A) (q : list A) : list A :=
  match q with
  | [] => [x]
  | y :: q' => if key x <? key y then x :: q else y :: pq_add x q'
  end.

Definition pq_remove (q : list A) : PyResult (A * list A) :=
  match q with
  | [] => Raise EmptyQueueError
  | x :: q' => Ok (x, q')
  end.

Definition pq_add_all (xs : list A) (q : list A) : list A :=
  fold_left (fun q x => pq_add x q) xs q.

(** Repeated [remove()] calls, as many as the queue holds items. *)
Fixpoint pq_drain (n : nat) (q : list A) : list A :=
  match n with
  | O => []
  | S n' =>
      match pq_remove q with
      | Ok (x, q') => x :: pq_drain n' q'
      | Raise _ => []
      end
  end.

End PriorityQueue.

(** ** simulation.py *)

Record Sim := mkSim { events : list Event; world : World }.

(** [Simulation.__init__] followed by the first loop of [run]. *)
Definition initial (rs : heap Rider) (ds : heap Driver) (initial_events : list Event) : Sim :=
  mkSim (pq_add_all timestamp initial_events [])
        (mkWorld rs ds empty_dispatcher empty_monitor).

(** One iteration of the [while] loop of [run]: the event removed and the
    state after it has been done and its new events added. *)
Definition sim_step (s : Sim) : option (Event * Sim) :=
  match pq_remove (events s) with
  | Ok (e, q') =>
      let '(w', new_events) := do_event e (world s) in
      Some (e, mkSim (pq_add_all timestamp new_events q') w')
  | Raise _ => None
  end.

Fixpoint steps (n : nat) (s : Sim) : option Sim :=
  match n with
  | O => Some s
  | S n' => match sim_step s with Some (_, s') => steps n' s' | None => None end
  end.

(** The [while] loop, with fuel: [None] when the fuel runs out first. *)
Fixpoint run_loop (fuel : nat) (s : Sim) : option World :=
  match events s with
  | [] => Some (world s)
  | _ :: _ =>
      match fuel with
      | O => None
      | S f => match sim_step s with Some (_, s') => run_loop f s' | None => None end
      end
  end.

(** [Simulation().run(initial_events)]: [Some] of the report (or of the
    exception it raises) when the loop ends within [fuel] iterations. *)
Definition run (fuel : nat) (rs : heap Rider) (ds : heap Driver)
    (initial_events : list Event) : option (PyResult Report) :=
  match run_loop fuel (initial rs ds initial_events) with
  | Some w => Some (report (monitor w))
  | None => None
  end.

(** ** Scenario B of the spec *)

Definition loc (r c : Z) : Location := mkLocation r c.

Definition xyz : Rider := mkRider "xyz" (loc 1 1) (loc 6 6) WAITING 4.
Definition sam : Driver := new_driver "Sam" (loc 1 1) 2.

Definition scenB_riders : heap Rider := fun _ => xyz.
Definition scenB_drivers : heap Driver := fun _ => sam.
Definition scenB_events : list Event := [DriverRequest 0 0; RiderRequest 1 0].
Definition scenB : Sim := initial scenB_riders scenB_drivers scenB_events.

Definition rider_partitions (d : Dispatcher) : list nat * list nat * list nat :=
  (waiting d, cancelled d, satisfied d).

(** A rider who cancels before the driver sent to her arrives: Sam at
    (1,1) with speed 2 requests at t=0, then "abc" (origin (6,6),
    patience 1) requests at t=0; the pickup is due at t=5, the
    cancellation at t=1. *)
Definition abc : Rider := mkRider "abc" (loc 6 6) (loc 1 1) WAITING 1.
Definition scenC_riders : heap Rider := fun _ => abc.
Definition scenC : Sim :=
  initial scenC_riders scenB_drivers [DriverRequest 0 0; RiderRequest 0 0].

(** Sam on the way to the origin of "abc", as after its RiderRequest. *)
Definition sam_enroute_C : World :=
  mkWorld scenC_riders (upd scenB_drivers 0%nat (fst (start_drive sam (loc 6 6))))
          empty_dispatcher empty_monitor.

(** Two driver objects with the identifier "Sam" (two DriverRequest lines
    for "Sam"), the first registered and idle at (1,1). *)
Definition two_sams : heap Driver :=
  fun d => match d with
           | O => new_driver "Sam" (loc 1 1) 2
           | _ => new_driver "Sam" (loc 2 2) 2
           end.
Definition sam_registered : World :=
  mkWorld scenB_riders two_sams (mkDispatcher [] [] [] [0%nat] [0%nat]) empty_monitor.

(** ** location.deserialize_location *)

(** Python's [int(s)] on a string of decimal digits. *)
Fixpoint digits_value (s : string) (acc : Z) : option Z :=
  match s with
  | EmptyString => Some acc
  | String c s' =>
      let n := Z.of_nat (Ascii.nat_of_ascii c) in
      if (48 <=? n) && (n <=? 57) then digits_value s' (acc * 10 + (n - 48)) else None
  end.

Definition py_int (s : string) : option Z :=
  match s with EmptyString => None | _ => digits_value s 0 end.

(** [deserialize_location(location_str)] returns
    [Location(location_str[0], location_str[2])]: the pair of the two
    one-character strings it stores as row and column. *)
Definition deserialize_location (location_str : string) : PyResult (string * string) :=
  match String.get 0 location_str, String.get 2 location_str with
  | Some c0, Some c2 => Ok (String c0 EmptyString, String c2 EmptyString)
  | _, _ => Raise IndexError
  end.

(** ** event.create_event_list *)

(** Python's [str.isspace] on one character of the Latin-1 range. *)
Definition py_isspace (c : ascii) : bool :=
  let n := Z.of_nat (Ascii.nat_of_ascii c) in
  ((9 <=? n) && (n <=? 13)) || ((28 <=? n) && (n <=? 32)) || (n =? 133) || (n =? 160).

Fixpoint py_lstrip (s : string) : string :=
  match s with
  | EmptyString => EmptyString
  | String c s' => if py_isspace c then py_lstrip s' else s
  end.

Fixpoint py_rstrip (s : string) : string :=
  match s with
  | EmptyString => EmptyString
  | String c s' =>
      match py_rstrip s' with
      | EmptyString => if py_isspace c then EmptyString else String c EmptyString
      | r => String c r
      end
  end.

(** [s.strip()]. *)
Definition py_strip (s : string) : string := py_rstrip (py_lstrip s).

(** [s.split(" ")]: cut at every space, empty fields kept. *)
Fixpoint py_split_space (s : string) : list string :=
  match s with
  | EmptyString => [EmptyString]
  | String c s' =>
      let rest := py_split_space s' in
      if Ascii.eqb c " "%char then EmptyString :: rest
      else match rest with
           | f :: fs => String c f :: fs
           | [] => [String c EmptyString]
           end
  end.

(** The digits of [int(s)]: decimal digits, single underscores allowed
    between two digits. *)
Fixpoint int_digits (s : string) (acc : Z) (after_digit : bool) : option Z :=
  match s with
  | EmptyString => if after_digit then Some acc else None
  | String c s' =>
      let n := Z.of_nat (Ascii.nat_of_ascii c) in
      if (48 <=? n) && (n <=? 57) then int_digits s' (acc * 10 + (n - 48)) true
      else if Ascii.eqb c "_"%char && after_digit then int_digits s' acc false
      else None
  end.

(** [int(s)] on a string: surrounding whitespace is ignored, then an
    optional sign and the digits; [None] is the [ValueError].  (The
    4300-digit limit of recent Python versions is not modelled.) *)
Definition py_int_str (s : string) : option Z :=
  match py_strip s with
  | EmptyString => None
  | String c s' =>
      if Ascii.eqb c "-"%char then option_map Z.opp (int_digits s' 0 false)
      else if Ascii.eqb c "+"%char then int_digits s' 0 false
      else int_digits (String c s') 0 false
  end.

(** The events [create_event_list] builds, with the arguments it passes
    to [Driver(identifier, location_, speed)] and
    [Rider(ident, origin, destination, patience, status=WAITING)]; a
    location is the pair of strings [deserialize_location] stores. *)
Inductive ParsedEvent :=
| ParsedDriverRequest (timestamp : Z) (identifier : string) (location : string * string)
    (speed : Z)
| ParsedRiderRequest (timestamp : Z) (identifier : string)
    (origin destination : string * string) (patience : Z).

(** The body of the loop on a stripped line that is neither empty nor a
    comment: [None] when it raises ([IndexError] or [ValueError]),
    [Some None] when the event type is neither request and nothing is
    appended. *)
Definition parse_tokens (tokens : list string) : option (option ParsedEvent) :=
  match nth_error tokens 0 with
  | None => None
  | Some t0 =>
  match py_int_str t0 with
  | None => None
  | Some timestamp =>
  match nth_error tokens 1 with
  | None => None
  | Some event_type =>
      if String.eqb event_type "DriverRequest" then
        match nth_error tokens 2, nth_error tokens 3, nth_error tokens 4 with
        | Some identifier, Some l, Some sp =>
            match deserialize_location l, py_int_str sp with
            | Ok location_, Some speed =>
                Some (Some (ParsedDriverRequest timestamp identifier location_ speed))
            | _, _ => None
            end
        | _, _, _ => None
        end
      else if String.eqb event_type "RiderRequest" then
        match nth_error tokens 2, nth_error tokens 3, nth_error tokens 4,
              nth_error tokens 5 with
        | Some ident, Some o, Some d, Some p =>
            match deserialize_location o, deserialize_location d, py_int_str p with
            | Ok origin, Ok destination, Some patience =>
                Some (Some (ParsedRiderRequest timestamp ident origin destination patience))
            | _, _, _ => None
            end
        | _, _, _, _ => None
        end
      else Some None
  end end end.

(** [not line or line.startswith("#")]. *)
Definition skip_line (line : string) : bool :=
  match line with
  | EmptyString => true
  | String c _ => Ascii.eqb c "#"%char
  end.

(** [create_event_list] on the lines the file yields; [None] when a line
    raises. *)
Fixpoint create_event_list (lines : list string) : option (list ParsedEvent) :=
  match lines with
  | [] => Some []
  | line :: rest =>
      let line := py_strip line in
      if skip_line line then create_event_list rest
      else
        match parse_tokens (py_split_space line) with
        | None => None
        | Some e =>
            match create_event_list rest with
            | None => None
            | Some es => Some (match e with Some ev => ev :: es | None => es end)
            end
        end
  end.

(** Writing the lines back: the decimal digits of a non-negative integer
    and the request lines in the format [create_event_list] reads. *)
Fixpoint z_digits (fuel : nat) (n : Z) : list Z :=
  match fuel with
  | O => []
  | S f => if n <? 10 then [n] else z_digits f (n / 10) ++ [n mod 10]
  end.

Definition digit_char (d : Z) : ascii := Ascii.ascii_of_nat (Z.to_nat (48 + d)).

Fixpoint string_of_digits (ds : list Z) : string :=
  match ds with
  | [] => EmptyString
  | d :: ds' => String (digit_char d) (string_of_digits ds')
  end.

Definition dec (n : Z) : string := string_of_digits (z_digits (S (Z.to_nat n)) n).

Definition location_token (r c : ascii) : string :=
  String r (String ","%char (String c EmptyString)).

Definition driver_line (t : Z) (identifier : string) (r c : ascii) (speed : Z) : string :=
  dec t ++ " DriverRequest " ++ identifier ++ " " ++ location_token r c ++ " " ++ dec speed.

Definition rider_line (t : Z) (identifier : string) (r c r' c' : ascii) (patience : Z)
    : string :=
  dec t ++ " RiderRequest " ++ identifier ++ " " ++ location_token r c ++ " "
    ++ location_token r' c' ++ " " ++ dec patience.

Fixpoint has_space (s : string) : bool :=
  match s with
  | EmptyString => false
  | String c s' => Ascii.eqb c " "%char || has_space s'
  end.

(** ** Reachable states of the simulation *)

(** The rider an event carries, if any. *)
Definition event_rider (e : Event) : option nat :=
  match e with
  | RiderRequest _ r | Cancellation _ r | Pickup _ r _ | Dropoff _ r _ => Some r
  | DriverRequest _ _ => None
  end.

Definition is_rider_request (e : Event) : bool :=
  match e with RiderRequest _ _ => true | _ => false end.

Definition is_request (e : Event) : bool :=
  match e with RiderRequest _ _ | DriverRequest _ _ => true | _ => false end.

(** The riders of the pending RiderRequest events. *)
Definition requested_riders (q : list Event) : list nat :=
  flat_map (fun e => match e with RiderRequest _ r => [r] | _ => [] end) q.

(** Rider identifiers are unique among the riders [rs]. *)
Definition ids_inj (h : heap Rider) (rs : list nat) : Prop :=
  forall a b, In a rs -> In b rs -> r_identifier (h a) = r_identifier (h b) -> a = b.

(** Initial events as [create_event_list] builds them: requests only, a
    fresh rider object for every RiderRequest, and (as the spec's data
    model asks) unique rider identifiers. *)
Definition wf_initial (rs : heap Rider) (initial_events : list Event) : Prop :=
  (forallb is_request initial_events = true)%bool /\
  NoDup (requested_riders initial_events) /\
  ids_inj rs (requested_riders initial_events).

(** The three rider partitions, one after the other. *)
Definition rider_lists (d : Dispatcher) : list nat :=
  waiting d ++ cancelled d ++ satisfied d.

(** [l.pop(l.index(x))] when list elements are compared by reference. *)
Fixpoint rm (x : nat) (l : list nat) : list nat :=
  match l with
  | [] => []
  | e :: l' => if Nat.eqb e x then l' else e :: rm x l'
  end.

(** The invariant of the reachable states, for the riders [rs] of the
    initial events. *)
Record Inv (rs : list nat) (s : Sim) : Prop := {
  inv_ids : ids_inj (riders (world s)) rs;
  inv_scope : incl (rider_lists (dispatcher (world s))) rs;
  inv_scope_events : forall e r, In e (events s) -> event_rider e = Some r -> In r rs;
  inv_nodup : NoDup (rider_lists (dispatcher (world s)));
  inv_fresh : forall r, In r (requested_riders (events s)) ->
                        ~ In r (rider_lists (dispatcher (world s)));
  inv_req_nodup : NoDup (requested_riders (events s)) }.

(** Between two dispatcher states, the idle and the total driver lists
    only grow at their ends, and what is appended to the idle list is
    appended to the total list too. *)
Definition drivers_grow (d d' : Dispatcher) : Prop :=
  exists a b, idle d' = idle d ++ a /\ total d' = total d ++ b /\ incl a b.

(** [self._activities[category]], and its lookup [d.get(identifier)]. *)
Definition category_dict (m : Monitor) (c : Category) : list (string * list Activity) :=
  match c with RIDER => m_rider m | DRIVER => m_driver m end.

Fixpoint dict_get (k : string) (d : list (string * list Activity)) : option (list Activity) :=
  match d with
  | [] => None
  | (k', v) :: d' => if String.eqb k k' then Some v else dict_get k d'
  end.

(** The six comparisons of [Event]. *)
Definition event_eq (a b : Event) : bool := timestamp a =? timestamp b.
Definition event_ne (a b : Event) : bool := negb (event_eq a b).
Definition event_lt (a b : Event) : bool := timestamp a <? timestamp b.
Definition event_le (a b : Event) : bool := timestamp a <=? timestamp b.
Definition event_gt (a b : Event) : bool := negb (event_le a b).
Definition event_ge (a b : Event) : bool := negb (event_lt a b).

(** The monitor of the docstrings of [_average_total_distance] and
    [_average_ride_distance]. *)
Definition doc_monitor : Monitor :=
  let m := empty_monitor in
  let m := notify m 0 DRIVER REQUEST "abc" (Some (loc 0 0)) in
  let m := notify m 3 DRIVER PICKUP "abc" (Some (loc 1 1)) in
  let m := notify m 6 DRIVER DROPOFF "abc" (Some (loc 5 5)) in
  let m := notify m 0 RIDER REQUEST "xyz" (Some (loc 1 1)) in
  let m := notify m 3 RIDER PICKUP "xyz" (Some (loc 1 1)) in
  let m := notify m 0 RIDER REQUEST "ash" (Some (loc 1 1)) in
  let m := notify m 8 RIDER PICKUP "ash" (Some (loc 1 1)) in
  let m := notify m 6 DRIVER REQUEST "luigi" (Some (loc 2 2)) in
  let m := notify m 8 DRIVER PICKUP "luigi" (Some (loc 3 3)) in
  notify m 145 DRIVER DROPOFF "luigi" (Some (loc 0 0)).

(** The monitor [m'] is [m] after some [notify] calls, all at time [t]. *)
Inductive notified_at (t : Z) : Monitor -> Monitor -> Prop :=
| na_refl (m : Monitor) : notified_at t m m
| na_step (m m1 : Monitor) (c : Category) (desc : Description) (i : string)
    (l : option Location) :
    notified_at t m m1 -> notified_at t m (notify m1 t c desc i l).

(** Every activity list of [m] is in time order and no activity is later
    than [T]. *)
Definition monitor_upto (T : Z) (m : Monitor) : Prop :=
  forall c k acts, In (k, acts) (category_dict m c) ->
    Sorted (fun a b => a_time a <= a_time b) acts /\ Forall (fun a => a_time a <= T) acts.

(** The invariant of a run for the timing properties: the queue is in
    timestamp order, no queued event is earlier than [T], no recorded
    activity is later than [T], and speeds and patiences are non-negative. *)
Record TInv (T : Z) (s : Sim) : Prop := {
  ti_sorted : StronglySorted (fun a b => timestamp a <= timestamp b) (events s);
  ti_after : forall e, In e (events s) -> T <= timestamp e;
  ti_monitor : monitor_upto T (monitor (world s));
  ti_speed : forall x, 0 <= d_speed (drivers (world s) x);
  ti_patience : forall x, 0 <= r_patience (riders (world s) x) }.

Definition scenB_after3 : Sim :=
  match steps 3 scenB with Some s => s | None => scenB end.

Definition scenB_after (n : nat) : Sim :=
  match steps n scenB with Some s => s | None => scenB end.

(** Queue items tagged with their insertion index; [before] is the order
    the spec asks of the queue: smaller timestamp first, then earlier
    insertion. *)
Section Tagged.
Context {A : Type} (key : A -> Z).

Definition tkey (p : nat * A) : Z := key (snd p).
Definition before (p p' : nat * A) : Prop :=
  tkey p < tkey p' \/ (tkey p = tkey p' /\ (fst p < fst p')%nat).

End Tagged.

(** ** Lemmas on the helpers *)

Lemma fold_min_spec (l : list Z) (x : Z) :
  fold_left Z.min l x <= x /\
  (forall y, In y l -> fold_left Z.min l x <= y) /\
  (fold_left Z.min l x = x \/ In (fold_left Z.min l x) l).
Proof.
  revert x; induction l as [|a l IH]; intros x; simpl.
  - split; [lia | split; [tauto | auto]].
  - destruct (IH (Z.min x a)) as (H1 & H2 & H3).
    split; [lia | split].
    + intros y [<- | Hy]; [lia | auto].
    + destruct H3 as [H3 | H3]; [rewrite H3 | auto].
      destruct (Z.min_spec x a) as [[_ ->] | [_ ->]]; auto.
Qed.

Lemma py_min_spec (l : list Z) :
  l <> [] -> In (py_min l) l /\ (forall y, In y l -> py_min l <= y).
Proof.
  destruct l as [|x l]; [congruence | intros _; simpl].
  destruct (fold_min_spec l x) as (H1 & H2 & H3).
  split.
  - destruct H3 as [-> | H3]; auto.
  - intros y [<- | Hy]; auto.
Qed.

Lemma find_split {X : Type} (f : X -> bool) (l : list X) (x : X) :
  find f l = Some x ->
  exists pre suf, l = pre ++ x :: suf /\ f x = true /\ (forall y, In y pre -> f y = false).
Proof.
  induction l as [|a l IH]; simpl; [discriminate|].
  case_eq (f a); intros Ha E.
  - injection E as <-. exists [], l. simpl. split; [reflexivity | split; [exact Ha | intros y []]].
  - destruct (IH E) as (pre & suf & -> & Hx & Hpre).
    exists (a :: pre), suf. simpl. split; [reflexivity | split; [assumption|]].
    intros y [<- | Hy]; auto.
Qed.

(** The inner [for] loop of [request_driver] always returns. *)
Lemma request_driver_find (w : World) (r : nat) :
  let tt := eta w r in
  idle (dispatcher w) <> [] ->
  exists d, find (fun d => tt d =? py_min (map tt (idle (dispatcher w))))
                 (idle (dispatcher w)) = Some d.
Proof.
  intros tt Hne.
  destruct (py_min_spec (map tt (idle (dispatcher w)))) as [Hin _].
  { destruct (idle (dispatcher w)); simpl; congruence. }
  apply in_map_iff in Hin as (d0 & Hd0 & Hin).
  case_eq (find (fun d => tt d =? py_min (map tt (idle (dispatcher w)))) (idle (dispatcher w))).
  - intros d _. eauto.
  - intros Hnone. apply (find_none _ _ Hnone) in Hin.
    apply Z.eqb_neq in Hin. congruence.
Qed.

Lemma round_half_even_pos_spec (p q : Z) :
  0 < q ->
  2 * Z.abs (p - round_half_even_pos p q * q) <= q /\
  (2 * Z.abs (p - round_half_even_pos p q * q) = q -> Z.even (round_half_even_pos p q) = true).
Proof.
  intros Hq. unfold round_half_even_pos.
  pose proof (Z.div_mod p q ltac:(lia)) as Hdm.
  pose proof (Z.mod_pos_bound p q Hq) as Hb.
  set (fl := p / q) in *. set (r := p mod q) in *.
  destruct (Z.compare_spec (2 * r) q) as [Heq | Hlt | Hgt].
  - case_eq (Z.even fl); intros Hev.
    + split; [|auto]. rewrite Z.abs_eq; lia.
    + split.
      * rewrite Z.abs_neq; lia.
      * intros _. rewrite Z.even_add, Hev. reflexivity.
  - split.
    + rewrite Z.abs_eq; lia.
    + rewrite Z.abs_eq; lia.
  - split.
    + rewrite Z.abs_neq; lia.
    + rewrite Z.abs_neq; lia.
Qed.

(** ** Claims about the dispatcher *)

(** C1: [request_driver] appends the rider to the waiting list, then
    returns an idle driver of least travel time to the rider's origin,
    the first such one in the idle list, and returns [None] exactly when
    the idle list is empty. *)
Theorem request_driver_nearest (w : World) (r : nat) :
  let tt := eta w r in
  let '(w', res) := request_driver w r in
  waiting (dispatcher w') = waiting (dispatcher w) ++ [r] /\
  (res = None <-> idle (dispatcher w) = []) /\
  (forall d, res = Some d ->
     exists pre suf, idle (dispatcher w) = pre ++ d :: suf /\
       (forall d', In d' (idle (dispatcher w)) -> tt d <= tt d') /\
       (forall d', In d' pre -> tt d < tt d')).
Proof.
  intros tt. unfold request_driver. fold tt.
  destruct (idle (dispatcher w)) as [|d0 l] eqn:Hidle; cbn zeta iota beta.
  { split; [reflexivity | split; [tauto | discriminate]]. }
  pose proof (request_driver_find w r) as Hfind. fold tt in Hfind.
  rewrite Hidle in Hfind. destruct Hfind as [d Hd]; [discriminate|].
  destruct (py_min_spec (map tt (d0 :: l))) as [_ Hmin]; [discriminate|].
  remember (py_min (map tt (d0 :: l))) as m eqn:Em.
  rewrite Hd.
  split; [reflexivity | split; [split; discriminate|]].
  intros d' E. injection E as <-.
  destruct (find_split _ _ _ Hd) as (pre & suf & Hsplit & Hm & Hpre).
  apply Z.eqb_eq in Hm.
  exists pre, suf. split; [exact Hsplit | split].
  - intros d'' Hin. rewrite Hm. apply Hmin, in_map, Hin.
  - intros d'' Hin. specialize (Hpre d'' Hin). apply Z.eqb_neq in Hpre.
    assert (In d'' (d0 :: l)) as Hin'.
    { rewrite Hsplit. apply in_or_app. left; exact Hin. }
    specialize (Hmin (tt d'') (in_map _ _ _ Hin')). lia.
Qed.

(** C5: [request_driver] changes neither the idle nor the total driver
    lists nor any driver object; a driver it returns is still in the idle
    list. *)
Theorem request_driver_frame (w : World) (r : nat) :
  let '(w', res) := request_driver w r in
  idle (dispatcher w') = idle (dispatcher w) /\
  total (dispatcher w') = total (dispatcher w) /\
  drivers w' = drivers w /\
  (forall d, res = Some d -> In d (idle (dispatcher w'))).
Proof.
  unfold request_driver.
  destruct (idle (dispatcher w)) as [|d0 l] eqn:Hidle; cbn zeta iota beta.
  - repeat split; try reflexivity. discriminate.
  - repeat split; try reflexivity.
    intros d Hd. apply find_some in Hd as [Hd _]. exact Hd.
Qed.

(** C7: the travel time is [round(manhattan_distance / speed)], the
    integer nearest to the quotient with ties to even, when the location
    is set and the speed positive; it is 0 when the speed is 0 or a
    location is unset; a driver at (1,1) with speed 2 needs 5 to reach
    (6,6) and 3 to reach (4,4). *)
Theorem get_travel_time_spec (d : Driver) (dst : option Location) :
  (forall l x, d_location d = Some l -> dst = Some x -> 0 < d_speed d ->
     let t := get_travel_time d dst in
     t = py_round_div (manhattan_distance l x) (d_speed d) /\
     2 * Z.abs (manhattan_distance l x - t * d_speed d) <= d_speed d /\
     (2 * Z.abs (manhattan_distance l x - t * d_speed d) = d_speed d -> Z.even t = true)) /\
  (d_speed d = 0 \/ dst = None \/ d_location d = None -> get_travel_time d dst = 0) /\
  get_travel_time (new_driver "Sam" (loc 1 1) 2) (Some (loc 6 6)) = 5 /\
  get_travel_time (new_driver "Sam" (loc 1 1) 2) (Some (loc 4 4)) = 3.
Proof.
  split; [|split; [|split; reflexivity]].
  - intros l x Hl Hx Hs t. subst dst. unfold t, get_travel_time. rewrite Hl.
    replace (negb (d_speed d =? 0)) with true by (symmetry; apply negb_true_iff, Z.eqb_neq; lia).
    unfold py_round_div. replace (d_speed d <? 0) with false by (symmetry; apply Z.ltb_ge; lia).
    split; [reflexivity|]. apply round_half_even_pos_spec; exact Hs.
  - unfold get_travel_time. intros [Hs | [-> | Hl]].
    + destruct dst, (d_location d); try reflexivity. rewrite Hs. reflexivity.
    + reflexivity.
    + destruct dst; rewrite ?Hl; reflexivity.
Qed.

(** ** Claims about the event loop *)

(** C2: scenario B.  The RiderRequest at t=1 yields a Pickup at t=1 and a
    Cancellation at t=5; the Pickup is done first and moves "xyz" from the
    waiting to the satisfied list; the Cancellation at t=5 then changes
    neither the rider lists nor the rider's status. *)
Theorem scenario_B :
  match steps 1 scenB with
  | Some s1 =>
      snd (do_event (RiderRequest 1 0) (world s1)) = [Pickup 1 0 0; Cancellation 5 0] /\
      match sim_step s1 with
      | Some (e2, s2) =>
          e2 = RiderRequest 1 0 /\
          match sim_step s2 with
          | Some (e3, s3) =>
              e3 = Pickup 1 0 0 /\
              rider_partitions (dispatcher (world s2)) = ([0%nat], [], []) /\
              rider_partitions (dispatcher (world s3)) = ([], [], [0%nat]) /\
              r_status (riders (world s3) 0%nat) = SATISFIED /\
              match sim_step s3 with
              | Some (e4, s4) =>
                  e4 = Cancellation 5 0 /\
                  rider_partitions (dispatcher (world s4)) =
                    rider_partitions (dispatcher (world s3)) /\
                  r_status (riders (world s4) 0%nat) = r_status (riders (world s3) 0%nat)
              | None => False
              end
          | None => False
          end
      | None => False
      end
  | None => False
  end.
Proof. vm_compute. repeat split. Qed.

(** C10 (helper): a monitor where no rider has two activities has no wait
    time to average. *)
Lemma wait_loop_short (vals : list (list Activity)) (acc : Z * Z) :
  (forall acts, In acts vals -> (List.length acts < 2)%nat) -> wait_loop vals acc = acc.
Proof.
  revert acc; induction vals as [|acts vals IH]; intros acc H; simpl; [reflexivity|].
  destruct acts as [|a0 [|a1 rest]].
  - apply IH. intros; apply H; simpl; auto.
  - apply IH. intros; apply H; simpl; auto.
  - exfalso. specialize (H (a0 :: a1 :: rest) (or_introl eq_refl)). simpl in H. lia.
Qed.

Lemma report_zero_division (m : Monitor) :
  (forall id acts, In (id, acts) (m_rider m) -> (List.length acts < 2)%nat) ->
  report m = Raise ZeroDivisionError.
Proof.
  intros H. unfold report, _average_wait_time.
  rewrite wait_loop_short; [reflexivity|].
  intros acts Hin. apply in_map_iff in Hin as ([id acts'] & <- & Hin).
  exact (H id acts' Hin).
Qed.

(** C10: when the event loop ends with no rider having two recorded
    activities, [run] raises ZeroDivisionError instead of returning a
    report. *)
Theorem run_zero_division (fuel : nat) (rs : heap Rider) (ds : heap Driver)
    (initial_events : list Event) (w : World)
    (Hloop : run_loop fuel (initial rs ds initial_events) = Some w)
    (Hshort : forall id acts, In (id, acts) (m_rider (monitor w)) -> (List.length acts < 2)%nat) :
  run fuel rs ds initial_events = Some (Raise ZeroDivisionError).
Proof.
  unfold run. rewrite Hloop. rewrite (report_zero_division _ Hshort). reflexivity.
Qed.

(** [run([])]: the loop ends at once, with an empty monitor. *)
Lemma run_zero_division_witness :
  run_loop 0 (initial scenB_riders scenB_drivers [])
    = Some (mkWorld scenB_riders scenB_drivers empty_dispatcher empty_monitor) /\
  run 0 scenB_riders scenB_drivers [] = Some (Raise ZeroDivisionError).
Proof.
  split; [reflexivity|].
  apply (run_zero_division 0 scenB_riders scenB_drivers []
           (mkWorld scenB_riders scenB_drivers empty_dispatcher empty_monitor)).
  - reflexivity.
  - simpl. intros id acts [].
Defined.

(** ** Claims about Pickup *)

(** A Pickup whose driver was en route to the rider's origin, as the code
    does it: [end_drive] moves the driver there but keeps that destination
    and leaves the driver not idle.  If the rider has cancelled, the
    driver stays so (destination still the origin) and a DriverRequest
    follows; otherwise [start_ride] sets the destination to the rider's
    destination and a Dropoff follows. *)
Theorem pickup_arrival (t : Z) (r d : nat) (w : World)
    (Hdest : d_destination (drivers w d) = Some (r_origin (riders w r))) :
  let x := r_origin (riders w r) in
  let dr := drivers w d in
  end_drive dr = mkDriver (d_identifier dr) (Some x) (d_speed dr) (Some x) false /\
  let '(w', evs) := pickup_do t r d w in
  (rider_in w r (cancelled (dispatcher w)) = true ->
     drivers w' d = mkDriver (d_identifier dr) (Some x) (d_speed dr) (Some x) false /\
     evs = [DriverRequest t d]) /\
  (rider_in w r (cancelled (dispatcher w)) = false ->
     drivers w' d = mkDriver (d_identifier dr) (Some x) (d_speed dr)
                             (Some (r_destination (riders w r))) false /\
     exists t', evs = [Dropoff t' r d]).
Proof.
  intros x dr.
  assert (He : end_drive dr = mkDriver (d_identifier dr) (Some x) (d_speed dr) (Some x) false).
  { unfold end_drive, dr. rewrite Hdest. reflexivity. }
  split; [exact He|].
  unfold pickup_do, rider_in, notify_w, set_driver, set_monitor. cbn [riders drivers dispatcher].
  fold dr. rewrite He.
  destruct (py_in (riders w) rider_eqb r (cancelled (dispatcher w))) eqn:Hc; cbn.
  - split; [|discriminate]. intros _. unfold upd. rewrite Nat.eqb_refl. split; reflexivity.
  - split; [discriminate|]. intros _. unfold upd. rewrite !Nat.eqb_refl.
    split; [reflexivity | eexists; reflexivity].
Qed.

(** C4: [Pickup.do]'s docstring says that when the rider has cancelled
    "the driver becomes idle", and the spec that the driver then has no
    next destination; but [end_drive] never clears the destination nor
    sets the idle flag.  For every Pickup whose driver was en route to a
    cancelled rider's origin, the driver is left not idle with the rider's
    origin as destination.  This happens in a run: in scenario C the rider
    cancels at t=1, the Pickup at t=5 finds her cancelled, and the driver
    keeps the destination (6,6) and stays not idle. *)
Theorem pickup_cancelled_keeps_destination :
  (forall (t : Z) (r d : nat) (w : World),
     d_destination (drivers w d) = Some (r_origin (riders w r)) ->
     rider_in w r (cancelled (dispatcher w)) = true ->
     (let '(w', evs) := pickup_do t r d w in
      d_destination (drivers w' d) = Some (r_origin (riders w r)) /\
      d_is_idle (drivers w' d) = false /\ evs = [DriverRequest t d])) /\
  match steps 3 scenC with
  | Some s3 =>
      cancelled (dispatcher (world s3)) = [0%nat] /\
      d_destination (drivers (world s3) 0%nat) = Some (loc 6 6) /\
      match sim_step s3 with
      | Some (e4, s4) =>
          e4 = Pickup 5 0 0 /\
          events s4 = [DriverRequest 5 0] /\
          d_location (drivers (world s4) 0%nat) = Some (loc 6 6) /\
          d_destination (drivers (world s4) 0%nat) = Some (loc 6 6) /\
          d_destination (drivers (world s4) 0%nat) <> None /\
          d_is_idle (drivers (world s4) 0%nat) = false
      | None => False
      end
  | None => False
  end.
Proof.
  split; [|vm_compute; repeat split; discriminate].
  intros t r d w Hdest Hc.
  destruct (pickup_arrival t r d w Hdest) as [_ H].
  destruct (pickup_do t r d w) as [w' evs].
  destruct (proj1 H Hc) as [-> ->]. repeat split.
Qed.

(** ** Driver registration *)

(** C8 (as the code does it): registration in [request_rider] is keyed
    by Python's [in] on the total list, that is the same object or one
    equal in identifier, location, speed, idle flag and destination
    ([Driver.__eq__]).  A driver already in the total list in that sense
    leaves the total and idle lists as they are; a driver that is a
    different object from every registered one and differs from each of
    them in some field (in particular one whose identifier is registered
    but whose location, speed, idle flag or destination differ) is
    appended to the total list again, and to the idle list if it is
    idle. *)
Theorem request_rider_registered (w : World) (d : nat) :
  let '(w', _) := request_rider w d in
  (driver_in w d (total (dispatcher w)) = true ->
     total (dispatcher w') = total (dispatcher w) /\ idle (dispatcher w') = idle (dispatcher w)) /\
  ((forall e, In e (total (dispatcher w)) ->
      e <> d /\ driver_eqb (drivers w e) (drivers w d) = false) ->
     total (dispatcher w') = total (dispatcher w) ++ [d] /\
     idle (dispatcher w') =
       (if d_is_idle (drivers w d) then idle (dispatcher w) ++ [d] else idle (dispatcher w))).
Proof.
  unfold request_rider.
  destruct (driver_in w d (total (dispatcher w))) eqn:Hin; cbn [negb].
  - split; [intros _; split; reflexivity|].
    intros Hall. exfalso.
    unfold driver_in, py_in in Hin. apply existsb_exists in Hin as (e & He & Hs).
    destruct (Hall e He) as [Hne Heq].
    unfold py_same in Hs. rewrite Heq, orb_false_r in Hs.
    apply Nat.eqb_eq in Hs. exact (Hne Hs).
  - split; [discriminate|]. intros _. split; reflexivity.
Qed.

Lemma request_rider_registered_witness :
  driver_in sam_registered 0%nat (total (dispatcher sam_registered)) = true /\
  total (dispatcher (fst (request_rider sam_registered 0%nat))) = [0%nat] /\
  (forall e, In e (total (dispatcher sam_registered)) ->
     e <> 1%nat /\ driver_eqb (drivers sam_registered e) (drivers sam_registered 1%nat) = false) /\
  total (dispatcher (fst (request_rider sam_registered 1%nat))) = [0%nat; 1%nat].
Proof.
  assert (Hin : driver_in sam_registered 0%nat (total (dispatcher sam_registered)) = true)
    by reflexivity.
  assert (Hall : forall e, In e (total (dispatcher sam_registered)) ->
     e <> 1%nat /\ driver_eqb (drivers sam_registered e) (drivers sam_registered 1%nat) = false).
  { intros e [<- | []]. split; [discriminate | reflexivity]. }
  split; [exact Hin|].
  split.
  - pose proof (request_rider_registered sam_registered 0%nat) as H.
    destruct (request_rider sam_registered 0%nat) as [w' res].
    exact (proj1 (proj1 H Hin)).
  - split; [exact Hall|].
    pose proof (request_rider_registered sam_registered 1%nat) as H.
    destruct (request_rider sam_registered 1%nat) as [w' res].
    exact (proj1 (proj2 H Hall)).
Defined.

(** C8 as stated fails: a second "Sam" object at another location is
    registered again although "Sam" is already in the total list. *)
Lemma request_rider_same_identifier :
  In 0%nat (total (dispatcher sam_registered)) /\
  d_identifier (two_sams 1%nat) = d_identifier (two_sams 0%nat) /\
  total (dispatcher (fst (request_rider sam_registered 1%nat))) = [0%nat; 1%nat] /\
  idle (dispatcher (fst (request_rider sam_registered 1%nat))) = [0%nat; 1%nat].
Proof. vm_compute. repeat split; auto. Qed.

(** ** Parsing locations *)

(** C9: [deserialize_location] reads the characters at positions 0 and
    2; on "12,3" it builds Location('1', ','), whose row reads as 1 and
    whose column is no integer. *)
Theorem deserialize_location_multi_digit :
  deserialize_location "12,3" = Ok ("1", ",")%string /\
  py_int "1" = Some 1 /\ py_int "," = None /\ py_int "12" = Some 12 /\
  deserialize_location "3,2" = Ok ("3", "2")%string.
Proof. vm_compute. repeat split. Qed.

(** ** The event queue *)

Section QueueOrder.
Context {A : Type} (key : A -> Z).
Local Abbreviation tkey := (tkey key).
Local Abbreviation before := (before key).

Lemma pq_add_perm (x : nat * A) (q : list (nat * A)) : Permutation (pq_add tkey x q) (x :: q).
Proof.
  induction q as [|y q IH]; simpl; [reflexivity|].
  destruct (tkey x <? tkey y); [reflexivity|].
  rewrite IH. apply perm_swap.
Qed.

Lemma pq_add_all_perm (xs q : list (nat * A)) :
  Permutation (pq_add_all tkey xs q) (xs ++ q).
Proof.
  revert q; induction xs as [|x xs IH]; intros q; simpl; [reflexivity|].
  unfold pq_add_all in *. simpl. rewrite IH, pq_add_perm.
  symmetry. apply Permutation_middle.
Qed.

Lemma pq_add_sorted (x : nat * A) (q : list (nat * A)) :
  StronglySorted before q -> (forall y, In y q -> (fst y < fst x)%nat) ->
  StronglySorted before (pq_add tkey x q).
Proof.
  induction q as [|y q IH]; intros Hs Htag; simpl.
  - repeat constructor.
  - inversion Hs as [|? ? Hs' Hall]; subst.
    destruct (tkey x <? tkey y) eqn:Hxy.
    + apply Z.ltb_lt in Hxy. constructor; [exact Hs|].
      constructor; [left; exact Hxy|].
      apply Forall_forall. intros z Hz.
      apply (proj1 (Forall_forall _ _) Hall) in Hz as [Hz | [Hz _]]; left; lia.
    + apply Z.ltb_ge in Hxy. constructor.
      * apply IH; [exact Hs'|]. intros z Hz. apply Htag. right; exact Hz.
      * apply Forall_forall. intros z Hz.
        apply (Permutation_in _ (pq_add_perm x q)) in Hz as [<- | Hz].
        -- destruct (Z.eq_dec (tkey y) (tkey x)) as [E|E].
           ++ right. split; [exact E|]. apply Htag. left; reflexivity.
           ++ left. lia.
        -- exact (proj1 (Forall_forall _ _) Hall z Hz).
Qed.

Lemma pq_add_all_sorted (xs : list A) (n : nat) (q : list (nat * A)) :
  StronglySorted before q -> (forall y, In y q -> (fst y < n)%nat) ->
  StronglySorted before (pq_add_all tkey (combine (seq n (List.length xs)) xs) q).
Proof.
  revert n q; induction xs as [|x xs IH]; intros n q Hs Htag; simpl; [exact Hs|].
  unfold pq_add_all in *. simpl. apply IH.
  - apply pq_add_sorted; assumption.
  - intros y Hy. apply (Permutation_in _ (pq_add_perm _ q)) in Hy as [<- | Hy].
    + simpl. lia.
    + specialize (Htag y Hy). lia.
Qed.

Lemma pq_drain_all (q : list (nat * A)) : pq_drain (List.length q) q = q.
Proof.
  induction q as [|x q IH]; simpl; [reflexivity|]. rewrite IH. reflexivity.
Qed.

End QueueOrder.

(** C6: whatever items are added, repeated [remove()] calls return them
    all, by non-decreasing timestamp, and of two items with the same
    timestamp the one added earlier first.  Items are tagged with their
    insertion index, which the queue never looks at. *)
Theorem pq_remove_order {A : Type} (key : A -> Z) (xs : list A) :
  let tagged := combine (seq 0 (List.length xs)) xs in
  let q := pq_add_all (tkey key) tagged [] in
  let out := pq_drain (List.length q) q in
  Permutation out tagged /\
  StronglySorted (fun p p' => key (snd p) < key (snd p') \/
                              (key (snd p) = key (snd p') /\ (fst p < fst p')%nat)) out.
Proof.
  intros tagged q out. unfold out. rewrite pq_drain_all. split.
  - unfold q. rewrite pq_add_all_perm, app_nil_r. reflexivity.
  - apply (pq_add_all_sorted key xs 0 []); [constructor | intros y []].
Qed.

(** ** Rider bookkeeping in reachable states *)

Lemma py_same_ref (h : heap Rider) (R : list nat) (r e : nat) :
  ids_inj h R -> In r R -> In e R -> py_same h rider_eqb r e = Nat.eqb e r.
Proof.
  intros Hinj Hr He. unfold py_same.
  destruct (Nat.eqb e r) eqn:E; [reflexivity|]. simpl.
  destruct (rider_eqb (h e) (h r)) eqn:Eq; [|reflexivity]. exfalso.
  unfold rider_eqb in Eq. repeat rewrite andb_true_iff in Eq.
  destruct Eq as [[[[Hid _] _] _] _]. apply String.eqb_eq in Hid.
  apply Nat.eqb_neq in E. exact (E (Hinj e r He Hr Hid)).
Qed.

Lemma py_in_ref (h : heap Rider) (R l : list nat) (r : nat) :
  ids_inj h R -> In r R -> incl l R -> py_in h rider_eqb r l = true <-> In r l.
Proof.
  intros Hinj Hr Hl. unfold py_in. rewrite existsb_exists. split.
  - intros (e & He & Hs). rewrite (py_same_ref h R r e Hinj Hr (Hl e He)) in Hs.
    apply Nat.eqb_eq in Hs. subst e. exact He.
  - intros Hin. exists r. split; [exact Hin|].
    rewrite (py_same_ref h R r r Hinj Hr Hr). apply Nat.eqb_refl.
Qed.

Lemma py_remove_ref (h : heap Rider) (R l : list nat) (r : nat) :
  ids_inj h R -> In r R -> incl l R -> py_remove h rider_eqb r l = rm r l.
Proof.
  intros Hinj Hr. induction l as [|e l IH]; intros Hl; simpl; [reflexivity|].
  rewrite (py_same_ref h R r e Hinj Hr (Hl e (or_introl eq_refl))).
  destruct (Nat.eqb e r); [reflexivity|].
  rewrite IH; [reflexivity|]. intros x Hx. apply Hl. right; exact Hx.
Qed.

Lemma rm_perm (r : nat) (l : list nat) : In r l -> Permutation l (r :: rm r l).
Proof.
  induction l as [|e l IH]; intros Hin; simpl; [contradiction|].
  destruct (Nat.eqb e r) eqn:E.
  - apply Nat.eqb_eq in E. subst e. reflexivity.
  - destruct Hin as [-> | Hin]; [rewrite Nat.eqb_refl in E; discriminate|].
    eapply perm_trans; [apply perm_skip, (IH Hin) | apply perm_swap].
Qed.

Lemma rm_incl (r : nat) (l : list nat) : incl (rm r l) l.
Proof.
  induction l as [|e l IH]; simpl; [intros x []|].
  destruct (Nat.eqb e r).
  - intros x Hx. right; exact Hx.
  - intros x [-> | Hx]; [left; reflexivity | right; apply IH, Hx].
Qed.

Lemma request_driver_lists (w w' : World) (r : nat) (o : option nat) :
  request_driver w r = (w', o) ->
  riders w' = riders w /\
  waiting (dispatcher w') = waiting (dispatcher w) ++ [r] /\
  cancelled (dispatcher w') = cancelled (dispatcher w) /\
  satisfied (dispatcher w') = satisfied (dispatcher w).
Proof.
  unfold request_driver. destruct (idle (dispatcher w)); intros E;
    injection E as <- _; repeat split.
Qed.

Lemma request_rider_lists (w w' : World) (d : nat) (o : option nat) :
  request_rider w d = (w', o) ->
  riders w' = riders w /\
  waiting (dispatcher w') = waiting (dispatcher w) /\
  cancelled (dispatcher w') = cancelled (dispatcher w) /\
  satisfied (dispatcher w') = satisfied (dispatcher w) /\
  (forall r, o = Some r -> In r (waiting (dispatcher w))).
Proof.
  unfold request_rider. destruct (negb (driver_in w d (total (dispatcher w))));
    intros E; injection E as <- <-; cbn; (repeat split);
    destruct (waiting (dispatcher w)) as [|r0 l]; intros r E; try discriminate;
    injection E as <-; left; reflexivity.
Qed.

Section EventEffects.
Context (R : list nat) (w : World).
Hypothesis Hinj : ids_inj (riders w) R.
Hypothesis Hscope : incl (rider_lists (dispatcher w)) R.

Lemma scope_waiting : incl (waiting (dispatcher w)) R.
Proof. intros x Hx. apply Hscope. unfold rider_lists. apply in_or_app; left; exact Hx. Qed.
Lemma scope_cancelled : incl (cancelled (dispatcher w)) R.
Proof. intros x Hx. apply Hscope. unfold rider_lists. apply in_or_app; right; apply in_or_app; left; exact Hx. Qed.
Lemma scope_satisfied : incl (satisfied (dispatcher w)) R.
Proof. intros x Hx. apply Hscope. unfold rider_lists. apply in_or_app; right; apply in_or_app; right; exact Hx. Qed.

(** Setting a rider's status keeps every identifier. *)
Lemma ids_inj_status (r : nat) (st : Status) :
  ids_inj (upd (riders w) r (set_status (riders w r) st)) R.
Proof.
  intros a b Ha Hb. unfold upd.
  destruct (Nat.eqb a r) eqn:Ea, (Nat.eqb b r) eqn:Eb; simpl; intros Hid;
    apply Nat.eqb_eq in Ea || apply Nat.eqb_neq in Ea;
    apply Nat.eqb_eq in Eb || apply Nat.eqb_neq in Eb;
    try (subst; reflexivity); apply Hinj; auto; subst; exact Hid.
Qed.

Lemma rider_request_effect (t : Z) (r : nat) (w' : World) (new : list Event) :
  rider_request_do t r w = (w', new) ->
  (forall x, r_identifier (riders w' x) = r_identifier (riders w x)) /\
  waiting (dispatcher w') = waiting (dispatcher w) ++ [r] /\
  cancelled (dispatcher w') = cancelled (dispatcher w) /\
  satisfied (dispatcher w') = satisfied (dispatcher w) /\
  (forall e, In e new -> event_rider e = Some r /\ is_rider_request e = false /\
                         (forall t' r' d', e <> Dropoff t' r' d')).
Proof.
  unfold rider_request_do.
  destruct (request_driver _ r) as [w2 found] eqn:Ereq.
  apply request_driver_lists in Ereq as (Hr & Hw & Hc & Hs). cbn in Hr, Hw, Hc, Hs.
  destruct found as [d|].
  - destruct (start_drive _ _) as [d' tt]. intros E. injection E as <- <-. cbn.
    rewrite Hr, Hw, Hc, Hs. do 4 (split; [intros; reflexivity|]).
    intros e [<- | [<- | []]]; repeat split; discriminate.
  - intros E. injection E as <- <-. rewrite Hr, Hw, Hc, Hs.
    do 4 (split; [intros; reflexivity|]).
    intros e [<- | []]; repeat split; discriminate.
Qed.

Lemma driver_request_effect (t : Z) (d : nat) (w' : World) (new : list Event) :
  driver_request_do t d w = (w', new) ->
  (forall x, r_identifier (riders w' x) = r_identifier (riders w x)) /\
  waiting (dispatcher w') = waiting (dispatcher w) /\
  cancelled (dispatcher w') = cancelled (dispatcher w) /\
  satisfied (dispatcher w') = satisfied (dispatcher w) /\
  (forall e, In e new -> is_rider_request e = false /\ (forall t' r' d', e <> Dropoff t' r' d') /\
     (forall r, event_rider e = Some r -> In r (waiting (dispatcher w)))).
Proof.
  unfold driver_request_do.
  destruct (request_rider _ d) as [w2 found] eqn:Ereq.
  apply request_rider_lists in Ereq as (Hr & Hw & Hc & Hs & Hf). cbn in Hr, Hw, Hc, Hs, Hf.
  destruct found as [r|].
  - destruct (start_drive _ _) as [d' tt]. intros E. injection E as <- <-. cbn.
    rewrite Hr, Hw, Hc, Hs. do 4 (split; [intros; reflexivity|]).
    intros e [<- | []]. split; [reflexivity | split; [discriminate|]].
    intros r' E. injection E as <-. apply Hf. reflexivity.
  - intros E. injection E as <- <-. rewrite Hr, Hw, Hc, Hs.
    do 4 (split; [intros; reflexivity|]).
    intros e [].
Qed.
Lemma cancellation_effect (t : Z) (r : nat) (w' : World) (new : list Event) :
  In r R -> cancellation_do t r w = (w', new) ->
  (forall x, r_identifier (riders w' x) = r_identifier (riders w x)) /\
  new = [] /\
  ((waiting (dispatcher w') = waiting (dispatcher w) /\
    cancelled (dispatcher w') = cancelled (dispatcher w) /\
    satisfied (dispatcher w') = satisfied (dispatcher w)) \/
   (~ In r (satisfied (dispatcher w)) /\ In r (waiting (dispatcher w)) /\
    waiting (dispatcher w') = rm r (waiting (dispatcher w)) /\
    cancelled (dispatcher w') = cancelled (dispatcher w) ++ [r] /\
    satisfied (dispatcher w') = satisfied (dispatcher w))).
Proof.
  intros HrR. unfold cancellation_do, cancel_ride, rider_in, rider_remove, notify_w,
    set_monitor, set_rider, set_dispatcher. cbn [riders drivers dispatcher monitor].
  destruct (py_in (riders w) rider_eqb r (satisfied (dispatcher w))) eqn:Es; cbn.
  - intros E. injection E as <- <-. cbn.
    split; [reflexivity | split; [reflexivity|]]. left. repeat split.
  - set (h := upd (riders w) r (set_status (riders w r) CANCELLED)).
    assert (Hh : ids_inj h R) by apply ids_inj_status.
    destruct (py_in h rider_eqb r (waiting (dispatcher w))) eqn:Ew;
      intros E; injection E as <- <-; cbn.
    + split.
      { intros x. unfold h, upd. destruct (Nat.eqb x r) eqn:Ex; [|reflexivity].
        apply Nat.eqb_eq in Ex. subst x. reflexivity. }
      split; [reflexivity|]. right.
      split; [|split; [|split; [|split; reflexivity]]].
      * intros Hin. apply (py_in_ref (riders w) R _ r Hinj HrR scope_satisfied) in Hin.
        congruence.
      * apply (py_in_ref h R _ r Hh HrR scope_waiting). exact Ew.
      * apply (py_remove_ref h R _ r Hh HrR scope_waiting).
    + split.
      { intros x. unfold h, upd. destruct (Nat.eqb x r) eqn:Ex; [|reflexivity].
        apply Nat.eqb_eq in Ex. subst x. reflexivity. }
      split; [reflexivity|]. left. repeat split.
Qed.
(** [end_successful_ride] on a state with the same partitions. *)
Lemma end_successful_ride_effect (w2 : World) (r : nat) :
  ids_inj (riders w2) R -> dispatcher w2 = dispatcher w -> In r R ->
  end_successful_ride w2 r = dispatcher w \/
  (In r (waiting (dispatcher w)) /\
   waiting (end_successful_ride w2 r) = rm r (waiting (dispatcher w)) /\
   cancelled (end_successful_ride w2 r) = cancelled (dispatcher w) /\
   satisfied (end_successful_ride w2 r) = satisfied (dispatcher w) ++ [r]).
Proof.
  intros Hh Hd HrR. unfold end_successful_ride, rider_in, rider_remove. rewrite Hd.
  destruct (py_in (riders w2) rider_eqb r (waiting (dispatcher w))) eqn:Ew;
    [right | left; reflexivity].
  cbn. split; [|split; [|split; reflexivity]].
  - apply (py_in_ref (riders w2) R _ r Hh HrR scope_waiting). exact Ew.
  - apply (py_remove_ref (riders w2) R _ r Hh HrR scope_waiting).
Qed.

Lemma pickup_effect (t : Z) (r d : nat) (w' : World) (new : list Event) :
  In r R -> pickup_do t r d w = (w', new) ->
  (forall x, r_identifier (riders w' x) = r_identifier (riders w x)) /\
  (forall e, In e new -> is_rider_request e = false /\
                         (forall r', event_rider e = Some r' -> r' = r)) /\
  (dispatcher w' = dispatcher w \/
   (In r (waiting (dispatcher w)) /\
    waiting (dispatcher w') = rm r (waiting (dispatcher w)) /\
    cancelled (dispatcher w') = cancelled (dispatcher w) /\
    satisfied (dispatcher w') = satisfied (dispatcher w) ++ [r])).
Proof.
  intros HrR. unfold pickup_do, notify_w, set_monitor, set_rider, set_driver,
    set_dispatcher. cbn [riders drivers dispatcher monitor].
  destruct (negb (rider_in _ r _)).
  - destruct (start_ride _ _) as [d' tt]. cbn [riders drivers dispatcher monitor].
    intros E. injection E as <- <-. cbn [riders dispatcher].
    split.
    { intros x. unfold upd. destruct (Nat.eqb x r) eqn:Ex; [|reflexivity].
      apply Nat.eqb_eq in Ex. subst x. reflexivity. }
    split.
    { intros e [<- | []]. split; [reflexivity|]. intros r' E; injection E as <-; reflexivity. }
    apply end_successful_ride_effect; [apply ids_inj_status | reflexivity | exact HrR].
  - intros E. injection E as <- <-. cbn.
    split; [reflexivity|]. split; [|left; reflexivity].
    intros e [<- | []]. split; [reflexivity | discriminate].
Qed.

Lemma dropoff_effect (t : Z) (r d : nat) (w' : World) (new : list Event) :
  In r R -> dropoff_do t r d w = (w', new) ->
  (forall x, r_identifier (riders w' x) = r_identifier (riders w x)) /\
  (forall e, In e new -> is_rider_request e = false /\
                         (forall r', event_rider e = Some r' -> r' = r)) /\
  (dispatcher w' = dispatcher w \/
   (In r (waiting (dispatcher w)) /\
    waiting (dispatcher w') = rm r (waiting (dispatcher w)) /\
    cancelled (dispatcher w') = cancelled (dispatcher w) /\
    satisfied (dispatcher w') = satisfied (dispatcher w) ++ [r])).
Proof.
  intros HrR. unfold dropoff_do, notify_w, set_monitor, set_driver, set_dispatcher.
  intros E. injection E as <- <-. cbn [riders dispatcher].
  split; [reflexivity|]. split.
  { intros e [<- | []]. split; [reflexivity | discriminate]. }
  apply end_successful_ride_effect; [exact Hinj | reflexivity | exact HrR].
Qed.
End EventEffects.

(** ** The queue keeps its items; the partitions along a run *)

Lemma pq_add_key_perm {A : Type} (key : A -> Z) (x : A) (q : list A) :
  Permutation (pq_add key x q) (x :: q).
Proof.
  induction q as [|y q IH]; simpl; [reflexivity|].
  destruct (key x <? key y); [reflexivity|].
  rewrite IH. apply perm_swap.
Qed.

Lemma pq_add_all_key_perm {A : Type} (key : A -> Z) (xs q : list A) :
  Permutation (pq_add_all key xs q) (xs ++ q).
Proof.
  revert q; induction xs as [|x xs IH]; intros q; simpl; [reflexivity|].
  unfold pq_add_all in *. simpl. rewrite IH, pq_add_key_perm.
  symmetry. apply Permutation_middle.
Qed.

Lemma requested_riders_app (l1 l2 : list Event) :
  requested_riders (l1 ++ l2) = requested_riders l1 ++ requested_riders l2.
Proof. unfold requested_riders. apply flat_map_app. Qed.

Lemma requested_riders_perm (l1 l2 : list Event) :
  Permutation l1 l2 -> Permutation (requested_riders l1) (requested_riders l2).
Proof.
  induction 1 as [| e l1 l2 _ IH | e1 e2 l | l1 l2 l3 _ IH1 _ IH2]; simpl.
  - constructor.
  - apply Permutation_app_head. exact IH.
  - rewrite !app_assoc. apply Permutation_app_tail, Permutation_app_comm.
  - eapply perm_trans; eauto.
Qed.

Lemma requested_riders_nil (l : list Event) :
  (forall e, In e l -> is_rider_request e = false) -> requested_riders l = [].
Proof.
  induction l as [|e l IH]; intros H; simpl; [reflexivity|].
  pose proof (H e (or_introl eq_refl)) as He.
  rewrite IH by (intros e' He'; apply H; right; exact He').
  destruct e; simpl in He |- *; congruence.
Qed.

Lemma requested_riders_in (l : list Event) (t : Z) (r : nat) :
  In (RiderRequest t r) l -> In r (requested_riders l).
Proof.
  intros Hin. unfold requested_riders. apply in_flat_map.
  exists (RiderRequest t r). split; [exact Hin | left; reflexivity].
Qed.

(** A rider moved from waiting to the end of cancelled or satisfied. *)
Lemma move_perm (d d' : Dispatcher) (r : nat) :
  In r (waiting d) -> waiting d' = rm r (waiting d) ->
  (cancelled d' = cancelled d ++ [r] /\ satisfied d' = satisfied d \/
   cancelled d' = cancelled d /\ satisfied d' = satisfied d ++ [r]) ->
  Permutation (rider_lists d') (rider_lists d).
Proof.
  intros Hin Hw Hcs. unfold rider_lists. rewrite Hw.
  symmetry. eapply perm_trans; [apply Permutation_app_tail, rm_perm, Hin|].
  simpl. destruct Hcs as [[-> ->] | [-> ->]]; rewrite <- ?app_assoc; simpl.
  - rewrite (app_assoc (rm r (waiting d)) (cancelled d) (r :: satisfied d)).
    apply Permutation_cons_app. rewrite <- app_assoc. reflexivity.
  - rewrite !app_assoc. apply Permutation_cons_append.
Qed.

Lemma nodup_app_disjoint (l1 l2 : list nat) (a : nat) :
  NoDup (l1 ++ l2) -> In a l1 -> In a l2 -> False.
Proof.
  induction l1 as [|x l1 IH]; simpl; intros Hnd H1 H2; [exact H1|].
  inversion Hnd as [|? ? Hx Hnd']; subst.
  destruct H1 as [-> | H1]; [apply Hx, in_or_app; right; exact H2 | exact (IH Hnd' H1 H2)].
Qed.

Lemma inv_initial (rs : heap Rider) (ds : heap Driver) (init : list Event) :
  wf_initial rs init -> Inv (requested_riders init) (initial rs ds init).
Proof.
  intros (Hreq & Hnd & Hids).
  assert (Hq : Permutation (pq_add_all timestamp init []) init).
  { rewrite pq_add_all_key_perm, app_nil_r. reflexivity. }
  constructor; cbn [events world dispatcher empty_dispatcher rider_lists waiting
                     cancelled satisfied app riders].
  - exact Hids.
  - intros x [].
  - intros e r He Her. apply (Permutation_in _ Hq) in He.
    pose proof (proj1 (forallb_forall _ _) Hreq e He) as Hr.
    destruct e as [t r0|t d0|t r0|t r0 d0|t r0 d0]; try discriminate; simpl in Her.
    injection Her as <-. apply (requested_riders_in _ t), He.
  - constructor.
  - intros r _ [].
  - apply (Permutation_NoDup (Permutation_sym (requested_riders_perm _ _ Hq))), Hnd.
Qed.

(** One step keeps [Inv] when the new events request no rider and name
    riders of [R], and the partitions after it are a rearrangement of the
    ones before and of the rider the removed event requested, if any. *)
Lemma inv_step_gen (R : list nat) (s : Sim) (e0 : Event) (q' new : list Event)
  (w' : World) :
  Inv R s -> events s = e0 :: q' ->
  (forall x, r_identifier (riders w' x) = r_identifier (riders (world s) x)) ->
  (forall e, In e new -> is_rider_request e = false /\
                         (forall r, event_rider e = Some r -> In r R)) ->
  Permutation (rider_lists (dispatcher w'))
              (requested_riders [e0] ++ rider_lists (dispatcher (world s))) ->
  Inv R (mkSim (pq_add_all timestamp new q') w').
Proof.
  intros [Hids Hsc Hsce Hnd Hfr Hrq] Hev Hid Hnew Hp.
  rewrite Hev in Hsce, Hfr, Hrq.
  assert (Hq : Permutation (pq_add_all timestamp new q') (new ++ q'))
    by apply pq_add_all_key_perm.
  assert (Hrn : requested_riders new = [])
    by (apply requested_riders_nil; intros e He; apply Hnew, He).
  assert (Hrq' : Permutation (requested_riders (pq_add_all timestamp new q'))
                             (requested_riders q')).
  { eapply perm_trans; [apply requested_riders_perm, Hq|].
    rewrite requested_riders_app, Hrn. reflexivity. }
  pose proof (requested_riders_app [e0] q') as Hrq0. simpl app in Hrq0.
  rewrite Hrq0 in Hfr, Hrq.
  constructor; cbn [events world].
  - intros a b Ha Hb Hab. apply Hids; [exact Ha | exact Hb |]. rewrite <- !Hid. exact Hab.
  - intros x Hx. apply (Permutation_in _ Hp) in Hx.
    apply in_app_or in Hx as [Hx | Hx]; [| apply Hsc, Hx].
    destruct e0 as [t r0|t d0|t r0|t r0 d0|t r0 d0]; simpl in Hx; try contradiction.
    destruct Hx as [<- | []]. apply (Hsce (RiderRequest t r0)); [left |]; reflexivity.
  - intros e r He Her. apply (Permutation_in _ Hq) in He.
    apply in_app_or in He as [He | He]; [apply (Hnew e He), Her |].
    apply (Hsce e r); [right; exact He | exact Her].
  - apply (Permutation_NoDup (Permutation_sym Hp)). apply NoDup_app.
    + apply NoDup_app_remove_r in Hrq. exact Hrq.
    + exact Hnd.
    + intros a Ha. apply Hfr. apply in_or_app; left; exact Ha.
  - intros r Hr Hin. apply (Permutation_in _ Hrq') in Hr.
    apply (Permutation_in _ Hp) in Hin. apply in_app_or in Hin as [Hin | Hin].
    + exact (nodup_app_disjoint _ _ r Hrq Hin Hr).
    + apply (Hfr r); [apply in_or_app; right; exact Hr | exact Hin].
  - apply (Permutation_NoDup (Permutation_sym Hrq')).
    apply NoDup_app_remove_l in Hrq. exact Hrq.
Qed.

(** One iteration of [run] keeps [Inv]; cancelled and satisfied only grow. *)
Lemma inv_step (R : list nat) (s s' : Sim) (e : Event) :
  Inv R s -> sim_step s = Some (e, s') ->
  Inv R s' /\
  incl (cancelled (dispatcher (world s))) (cancelled (dispatcher (world s'))) /\
  incl (satisfied (dispatcher (world s))) (satisfied (dispatcher (world s'))).
Proof.
  intros HI. pose proof HI as [Hids Hsc Hsce _ _ _]. unfold sim_step.
  destruct (events s) as [|e0 q'] eqn:Hev; [discriminate|]. cbn [pq_remove].
  destruct (do_event e0 (world s)) as [w' new] eqn:Edo.
  intros E. injection E as <- <-. cbn [world].
  assert (He0R : forall r, event_rider e0 = Some r -> In r R)
    by (intros r Hr; apply (Hsce e0 r); [try rewrite Hev; left; reflexivity | exact Hr]).
  destruct e0 as [t r|t d|t r|t r d|t r d]; cbn [do_event] in Edo.
  - destruct (rider_request_effect _ t r w' new Edo) as (Hi & Hw & Hc & Hs & Hn).
    split; [apply (inv_step_gen R s _ q' new w' HI Hev Hi) | rewrite Hc, Hs; split; apply incl_refl].
    + intros e He. destruct (Hn e He) as (Her & Hrr & _). split; [exact Hrr|].
      intros r' Hr'. rewrite Her in Hr'. injection Hr' as <-. apply He0R. reflexivity.
    + unfold rider_lists. rewrite Hw, Hc, Hs. simpl. rewrite <- app_assoc. simpl.
      symmetry. apply Permutation_middle.
  - destruct (driver_request_effect _ t d w' new Edo) as (Hi & Hw & Hc & Hs & Hn).
    split; [apply (inv_step_gen R s _ q' new w' HI Hev Hi) | rewrite Hc, Hs; split; apply incl_refl].
    + intros e He. destruct (Hn e He) as (Hrr & _ & Hw0). split; [exact Hrr|].
      intros r' Hr'. apply Hsc. apply in_or_app; left. apply Hw0, Hr'.
    + unfold rider_lists. rewrite Hw, Hc, Hs. reflexivity.
  - destruct (cancellation_effect R _ Hids Hsc t r w' new (He0R r eq_refl) Edo)
      as (Hi & -> & Hl).
    split; [apply (inv_step_gen R s _ q' [] w' HI Hev Hi) |].
    + intros e [].
    + destruct Hl as [(Hw & Hc & Hs) | (_ & Hin & Hw & Hc & Hs)].
      * unfold rider_lists. rewrite Hw, Hc, Hs. reflexivity.
      * apply (move_perm _ _ r Hin Hw). left; split; assumption.
    + destruct Hl as [(Hw & Hc & Hs) | (_ & Hin & Hw & Hc & Hs)]; rewrite Hc, Hs.
      * split; apply incl_refl.
      * split; [apply incl_appl, incl_refl | apply incl_refl].
  - destruct (pickup_effect R _ Hids Hsc t r d w' new (He0R r eq_refl) Edo)
      as (Hi & Hn & Hl).
    split; [apply (inv_step_gen R s _ q' new w' HI Hev Hi) |].
    + intros e He. destruct (Hn e He) as (Hrr & Her). split; [exact Hrr|].
      intros r' Hr'. rewrite (Her r' Hr'). apply He0R. reflexivity.
    + destruct Hl as [-> | (Hin & Hw & Hc & Hs)]; [reflexivity|].
      apply (move_perm _ _ r Hin Hw). right; split; assumption.
    + destruct Hl as [-> | (Hin & Hw & Hc & Hs)]; [split; apply incl_refl|].
      rewrite Hc, Hs. split; [apply incl_refl | apply incl_appl, incl_refl].
  - destruct (dropoff_effect R _ Hids Hsc t r d w' new (He0R r eq_refl) Edo)
      as (Hi & Hn & Hl).
    split; [apply (inv_step_gen R s _ q' new w' HI Hev Hi) |].
    + intros e He. destruct (Hn e He) as (Hrr & Her). split; [exact Hrr|].
      intros r' Hr'. rewrite (Her r' Hr'). apply He0R. reflexivity.
    + destruct Hl as [-> | (Hin & Hw & Hc & Hs)]; [reflexivity|].
      apply (move_perm _ _ r Hin Hw). right; split; assumption.
    + destruct Hl as [-> | (Hin & Hw & Hc & Hs)]; [split; apply incl_refl|].
      rewrite Hc, Hs. split; [apply incl_refl | apply incl_appl, incl_refl].
Qed.

Lemma inv_steps (R : list nat) (n : nat) (s s' : Sim) :
  Inv R s -> steps n s = Some s' ->
  Inv R s' /\
  incl (cancelled (dispatcher (world s))) (cancelled (dispatcher (world s'))) /\
  incl (satisfied (dispatcher (world s))) (satisfied (dispatcher (world s'))).
Proof.
  revert s; induction n as [|n IH]; intros s HI; simpl.
  - intros E. injection E as <-. split; [exact HI | split; apply incl_refl].
  - destruct (sim_step s) as [[e s1]|] eqn:Es; [|discriminate]. intros Hn.
    destruct (inv_step R s s1 e HI Es) as (HI1 & Hc1 & Hs1).
    destruct (IH s1 HI1 Hn) as (HI' & Hc & Hs).
    split; [exact HI' | split; eapply incl_tran; eassumption].
Qed.

Lemma inv_exclusive (R : list nat) (s : Sim) (r : nat) :
  Inv R s ->
  ~ (In r (cancelled (dispatcher (world s))) /\ In r (satisfied (dispatcher (world s)))).
Proof.
  intros [_ _ _ Hnd _ _] [Hc Hs]. unfold rider_lists in Hnd.
  apply NoDup_app_remove_l in Hnd. exact (nodup_app_disjoint _ _ r Hnd Hc Hs).
Qed.

(** C3: in every state reached from well-formed initial events, no rider is
    both cancelled and satisfied; a cancelled (satisfied) rider stays
    cancelled (satisfied) and never becomes satisfied (cancelled) in any
    later state; and [cancel_ride] on a satisfied rider leaves the
    dispatcher unchanged. *)
Theorem partitions_exclusive (rs : heap Rider) (ds : heap Driver)
  (init : list Event) (n : nat) (s : Sim) :
  wf_initial rs init -> steps n (initial rs ds init) = Some s ->
  forall r : nat,
    ~ (In r (cancelled (dispatcher (world s))) /\
       In r (satisfied (dispatcher (world s)))) /\
    (forall (m : nat) (s' : Sim), steps m s = Some s' ->
       (In r (cancelled (dispatcher (world s))) ->
          In r (cancelled (dispatcher (world s'))) /\
          ~ In r (satisfied (dispatcher (world s')))) /\
       (In r (satisfied (dispatcher (world s))) ->
          In r (satisfied (dispatcher (world s'))) /\
          ~ In r (cancelled (dispatcher (world s'))))) /\
    (In r (satisfied (dispatcher (world s))) ->
       cancel_ride (world s) r = dispatcher (world s)).
Proof.
  intros Hwf Hn r. set (R := requested_riders init).
  destruct (inv_steps R n _ s (inv_initial rs ds init Hwf) Hn) as (HI & _ & _).
  split; [apply (inv_exclusive R s r HI) | split].
  - intros m s' Hm. destruct (inv_steps R m s s' HI Hm) as (HI' & Hc & Hs).
    split; intros Hin; split.
    + apply Hc, Hin.
    + intros Hs'. apply (inv_exclusive R s' r HI'). split; [apply Hc, Hin | exact Hs'].
    + apply Hs, Hin.
    + intros Hc'. apply (inv_exclusive R s' r HI'). split; [exact Hc' | apply Hs, Hin].
  - intros Hin. destruct HI as [Hids Hsc _ Hnd _ _].
    assert (HrR : In r R).
    { apply Hsc. unfold rider_lists. apply in_or_app; right; apply in_or_app; right.
      exact Hin. }
    unfold cancel_ride, rider_in. cbv zeta.
    destruct (py_in _ _ r _) eqn:Ew; [exfalso | reflexivity].
    apply (py_in_ref _ R _ r Hids HrR) in Ew.
    + unfold rider_lists in Hnd. apply (nodup_app_disjoint _ _ r Hnd Ew).
      apply in_or_app; right; exact Hin.
    + intros x Hx. apply Hsc. apply in_or_app; left; exact Hx.
Qed.

Lemma partitions_exclusive_witness :
  wf_initial scenB_riders scenB_events /\
  steps 3 (initial scenB_riders scenB_drivers scenB_events) = Some scenB_after3 /\
  In 0%nat (satisfied (dispatcher (world scenB_after3))) /\
  cancel_ride (world scenB_after3) 0 = dispatcher (world scenB_after3).
Proof.
  assert (Hwf : wf_initial scenB_riders scenB_events).
  { split; [reflexivity | split].
    - repeat constructor. simpl. tauto.
    - intros a b [<- | []] [<- | []] _. reflexivity. }
  assert (Hs : steps 3 (initial scenB_riders scenB_drivers scenB_events) = Some scenB_after3)
    by (vm_compute; reflexivity).
  assert (Hin : In 0%nat (satisfied (dispatcher (world scenB_after3))))
    by (vm_compute; left; reflexivity).
  split; [exact Hwf | split; [exact Hs | split; [exact Hin |]]].
  exact (proj2 (proj2 (partitions_exclusive scenB_riders scenB_drivers scenB_events
                         3 scenB_after3 Hwf Hs 0)) Hin).
Defined.

(** ** Further properties of the code *)

(** [manhattan_distance] is a metric on locations: symmetric,
    non-negative, zero exactly between equal locations ([Location.__eq__]),
    and it satisfies the triangle inequality. *)
Theorem manhattan_distance_metric (a b c : Location) :
  manhattan_distance a b = manhattan_distance b a /\
  0 <= manhattan_distance a b /\
  (manhattan_distance a b = 0 <-> location_eqb a b = true) /\
  manhattan_distance a c <= manhattan_distance a b + manhattan_distance b c.
Proof.
  unfold manhattan_distance, location_eqb. rewrite andb_true_iff, !Z.eqb_eq.
  split; [lia | split; [lia | split; [split; intros; lia | lia]]].
Qed.

Lemma py_int_digit (n : Z) :
  0 <= n <= 9 ->
  py_int (String (Ascii.ascii_of_nat (Z.to_nat (48 + n))) EmptyString) = Some n.
Proof.
  intros Hn. unfold py_int, digits_value.
  rewrite Ascii.nat_ascii_embedding by lia. rewrite Z2Nat.id by lia.
  replace ((48 <=? 48 + n) && (48 + n <=? 57))%bool with true
    by (symmetry; apply andb_true_iff; split; apply Z.leb_le; lia).
  f_equal. lia.
Qed.

(** [deserialize_location] reads a token whose first and third
    characters are single decimal digits [r] and [c] correctly: whatever
    the second character and whatever follows the column digit, the stored
    row and column are one-character strings whose [int] values are [r]
    and [c]. *)
Theorem deserialize_location_single_digits (r c : Z) (m : ascii) (rest : string) :
  0 <= r <= 9 -> 0 <= c <= 9 ->
  let dr := Ascii.ascii_of_nat (Z.to_nat (48 + r)) in
  let dc := Ascii.ascii_of_nat (Z.to_nat (48 + c)) in
  deserialize_location (String dr (String m (String dc rest))) =
    Ok (String dr EmptyString, String dc EmptyString) /\
  py_int (String dr EmptyString) = Some r /\
  py_int (String dc EmptyString) = Some c.
Proof.
  intros Hr Hc dr dc. split; [reflexivity|].
  split; apply py_int_digit; assumption.
Qed.

Lemma deserialize_location_single_digits_witness :
  (0 <= 3 <= 9 /\ 0 <= 2 <= 9) /\
  deserialize_location "3,2" = Ok ("3", "2")%string /\
  deserialize_location "3;2x" = Ok ("3", "2")%string.
Proof.
  split; [lia|]. split.
  - exact (proj1 (deserialize_location_single_digits 3 2 ","%char EmptyString
                    ltac:(lia) ltac:(lia))).
  - exact (proj1 (deserialize_location_single_digits 3 2 ";"%char "x"%string
                    ltac:(lia) ltac:(lia))).
Defined.

(** A location string of fewer than three characters makes
    [deserialize_location] raise [IndexError] ([location_str[2]]). *)
Theorem deserialize_location_short (s : string) :
  (String.length s < 3)%nat -> deserialize_location s = Raise IndexError.
Proof.
  intros Hs. unfold deserialize_location.
  destruct s as [|a [|b [|c s]]]; simpl in Hs |- *; try reflexivity. lia.
Qed.

Lemma deserialize_location_short_witness :
  (String.length "3," < 3)%nat /\ deserialize_location "3," = Raise IndexError.
Proof.
  split; [simpl; lia | apply deserialize_location_short; simpl; lia].
Defined.

(** A driver's full trip for one rider ([start_drive] to the rider's
    origin, [end_drive], [start_ride], [end_ride]) leaves it idle at the
    rider's destination with no destination, its identifier and speed
    unchanged; the two times returned are the travel times of the two legs,
    the second measured from the rider's origin. *)
Theorem driver_trip (d : Driver) (r : Rider) :
  let '(d1, t1) := start_drive d (r_origin r) in
  let d2 := end_drive d1 in
  let '(d3, t2) := start_ride d2 r in
  end_ride d3 = mkDriver (d_identifier d) (Some (r_destination r)) (d_speed d) None true /\
  t1 = get_travel_time d (Some (r_origin r)) /\
  d2 = mkDriver (d_identifier d) (Some (r_origin r)) (d_speed d) (Some (r_origin r)) false /\
  t2 = get_travel_time d2 (Some (r_destination r)) /\
  d_is_idle d1 = false /\ d_is_idle d3 = false.
Proof. repeat split. Qed.

(** For a non-negative speed the travel time is never negative, and it is
    0 to the driver's own location. *)
Theorem get_travel_time_nonneg (d : Driver) (dst : option Location) :
  0 <= d_speed d ->
  0 <= get_travel_time d dst /\
  (d_location d = dst -> get_travel_time d dst = 0).
Proof.
  intros Hs. unfold get_travel_time.
  destruct dst as [dst|]; [|split; [lia | reflexivity]].
  destruct (d_location d) as [loc|]; [|split; [lia | discriminate]].
  destruct (d_speed d =? 0) eqn:Ez; simpl; [split; [lia | reflexivity]|].
  apply Z.eqb_neq in Ez.
  unfold py_round_div. replace (d_speed d <? 0) with false by (symmetry; apply Z.ltb_ge; lia).
  unfold round_half_even_pos.
  assert (Hd : 0 <= manhattan_distance loc dst / d_speed d)
    by (apply Z.div_pos; [unfold manhattan_distance; lia | lia]).
  split.
  - destruct (Z.compare _ _); [destruct (Z.even _)|..]; lia.
  - intros E. injection E as ->.
    replace (manhattan_distance dst dst) with 0 by (unfold manhattan_distance; lia).
    rewrite Z.div_0_l, Z.mod_0_l by lia. simpl.
    destruct (d_speed d) eqn:Es; [lia | reflexivity | lia].
Qed.

Lemma get_travel_time_nonneg_witness :
  0 <= d_speed sam /\ 0 <= get_travel_time sam (Some (loc 6 6)).
Proof.
  split; [vm_compute; discriminate|].
  exact (proj1 (get_travel_time_nonneg sam (Some (loc 6 6)) ltac:(vm_compute; discriminate))).
Defined.

(** [l.pop(l.index(x))] when [x in l]: the first element that matches is
    removed. *)
Lemma py_remove_split {A : Type} (h : heap A) (eqb : A -> A -> bool) (x : nat) (l : list nat) :
  py_in h eqb x l = true ->
  exists pre y post, l = pre ++ y :: post /\ existsb (py_same h eqb x) pre = false /\
    py_same h eqb x y = true /\ py_remove h eqb x l = pre ++ post.
Proof.
  unfold py_in. induction l as [|e l IH]; simpl; [discriminate|].
  destruct (py_same h eqb x e) eqn:E; simpl.
  - intros _. exists [], e, l. repeat split; assumption.
  - intros H. destruct (IH H) as (pre & y & post & -> & Hpre & Hy & Hr).
    exists (e :: pre), y, post. simpl. rewrite E, Hpre, Hr. repeat split; assumption.
Qed.

(** [request_rider] hands out the longest-waiting rider (the head of the
    waiting list) without taking it off that list: the rider lists and
    every rider and driver object are left as they were. *)
Theorem request_rider_head (w : World) (d : nat) :
  let '(w', found) := request_rider w d in
  found = hd_error (waiting (dispatcher w)) /\
  waiting (dispatcher w') = waiting (dispatcher w) /\
  cancelled (dispatcher w') = cancelled (dispatcher w) /\
  satisfied (dispatcher w') = satisfied (dispatcher w) /\
  riders w' = riders w /\ drivers w' = drivers w.
Proof.
  unfold request_rider. destruct (negb _); cbn;
    destruct (waiting (dispatcher w)); repeat split.
Qed.

(** [cancel_ride] and [end_successful_ride]: when the rider is not in the
    waiting list (by identity or [Rider.__eq__]) the dispatcher is left
    unchanged; otherwise the first matching entry of the waiting list is
    removed and the rider appended to the cancelled, respectively the
    satisfied, list.  The other lists are never touched. *)
Theorem cancel_end_ride_shape (w : World) (r : nat) :
  let disp := dispatcher w in
  (rider_in w r (waiting disp) = false ->
     cancel_ride w r = disp /\ end_successful_ride w r = disp) /\
  (rider_in w r (waiting disp) = true ->
     exists pre y post,
       waiting disp = pre ++ y :: post /\
       existsb (py_same (riders w) rider_eqb r) pre = false /\
       py_same (riders w) rider_eqb r y = true /\
       cancel_ride w r = mkDispatcher (pre ++ post) (cancelled disp ++ [r])
                           (satisfied disp) (idle disp) (total disp) /\
       end_successful_ride w r = mkDispatcher (pre ++ post) (cancelled disp)
                           (satisfied disp ++ [r]) (idle disp) (total disp)).
Proof.
  intros disp. unfold cancel_ride, end_successful_ride. fold disp. cbv zeta.
  split; intros H; rewrite H; [split; reflexivity|].
  destruct (py_remove_split _ _ r _ H) as (pre & y & post & Hw & Hpre & Hy & Hr).
  exists pre, y, post. unfold rider_remove. rewrite Hr. repeat split; assumption.
Qed.

Lemma cancel_end_ride_shape_witness :
  rider_in (world scenB_after3) 0 (waiting (dispatcher (world scenB_after3))) = false /\
  cancel_ride (world scenB_after3) 0 = dispatcher (world scenB_after3).
Proof.
  assert (H : rider_in (world scenB_after3) 0 (waiting (dispatcher (world scenB_after3))) = false)
    by (vm_compute; reflexivity).
  split; [exact H | exact (proj1 (proj1 (cancel_end_ride_shape (world scenB_after3) 0) H))].
Defined.

Lemma drivers_grow_same (d d' : Dispatcher) :
  idle d' = idle d -> total d' = total d -> drivers_grow d d'.
Proof.
  intros Hi Ht. exists [], []. rewrite Hi, Ht, !app_nil_r.
  repeat split. intros x [].
Qed.

Lemma drivers_grow_trans (d1 d2 d3 : Dispatcher) :
  drivers_grow d1 d2 -> drivers_grow d2 d3 -> drivers_grow d1 d3.
Proof.
  intros (a & b & Ha & Hb & Hab) (a' & b' & Ha' & Hb' & Hab').
  exists (a ++ a'), (b ++ b'). rewrite Ha', Hb', Ha, Hb, <- !app_assoc.
  split; [reflexivity | split; [reflexivity|]].
  intros x Hx. apply in_app_or in Hx as [Hx | Hx]; apply in_or_app; auto.
Qed.

Lemma request_rider_grow (w : World) (d : nat) :
  drivers_grow (dispatcher w) (dispatcher (fst (request_rider w d))).
Proof.
  unfold request_rider. destruct (negb _); cbn; [|apply drivers_grow_same; reflexivity].
  exists (if d_is_idle (drivers w d) then [d] else []), [d].
  split; [destruct (d_is_idle _); [reflexivity | rewrite app_nil_r; reflexivity]|].
  split; [reflexivity|]. destruct (d_is_idle _); [apply incl_refl | intros x []].
Qed.

Lemma cancel_ride_idle (w : World) (r : nat) : idle (cancel_ride w r) = idle (dispatcher w).
Proof. unfold cancel_ride. destruct (rider_in _ _ _); reflexivity. Qed.
Lemma cancel_ride_total (w : World) (r : nat) : total (cancel_ride w r) = total (dispatcher w).
Proof. unfold cancel_ride. destruct (rider_in _ _ _); reflexivity. Qed.
Lemma end_successful_ride_idle (w : World) (r : nat) :
  idle (end_successful_ride w r) = idle (dispatcher w).
Proof. unfold end_successful_ride. destruct (rider_in _ _ _); reflexivity. Qed.
Lemma end_successful_ride_total (w : World) (r : nat) :
  total (end_successful_ride w r) = total (dispatcher w).
Proof. unfold end_successful_ride. destruct (rider_in _ _ _); reflexivity. Qed.

Lemma do_event_grow (e : Event) (w : World) :
  drivers_grow (dispatcher w) (dispatcher (fst (do_event e w))).
Proof.
  destruct e as [t r|t d|t r|t r d|t r d]; cbn [do_event].
  - unfold rider_request_do.
    destruct (request_driver _ r) as [w2 found] eqn:Er.
    assert (Hd : idle (dispatcher w2) = idle (dispatcher w) /\
                 total (dispatcher w2) = total (dispatcher w)).
    { unfold request_driver in Er. cbv zeta in Er.
      destruct (idle (dispatcher _)); injection Er as <- _; split; reflexivity. }
    destruct found as [d|]; [destruct (start_drive _ _)|]; cbn;
      apply drivers_grow_same; apply Hd.
  - unfold driver_request_do.
    pose proof (request_rider_grow (notify_w w t DRIVER REQUEST (d_identifier (drivers w d))
                                     (d_location (drivers w d))) d) as Hg.
    destruct (request_rider _ d) as [w2 [r|]]; cbn in Hg |- *; exact Hg.
  - unfold cancellation_do. destruct (negb _); cbn [fst set_dispatcher dispatcher];
      apply drivers_grow_same;
      try rewrite cancel_ride_idle; try rewrite cancel_ride_total; reflexivity.
  - unfold pickup_do. destruct (negb _);
      [destruct (start_ride _ _) as [d' tt]|]; cbn [fst set_dispatcher dispatcher];
      apply drivers_grow_same;
      try rewrite end_successful_ride_idle; try rewrite end_successful_ride_total; reflexivity.
  - unfold dropoff_do. cbn [fst set_dispatcher dispatcher]. apply drivers_grow_same;
      try rewrite end_successful_ride_idle; try rewrite end_successful_ride_total; reflexivity.
Qed.

(** No event ever takes a driver off the dispatcher's idle or total
    lists (not even a driver that is driving): doing any event only
    appends to them, and a driver appended to the idle list is appended to
    the total list in the same step. *)
Theorem do_event_drivers_only_appended (e : Event) (w : World) :
  let disp' := dispatcher (fst (do_event e w)) in
  exists a b, idle disp' = idle (dispatcher w) ++ a /\
              total disp' = total (dispatcher w) ++ b /\ incl a b.
Proof. exact (do_event_grow e w). Qed.

Lemma steps_grow (n : nat) (s s' : Sim) :
  steps n s = Some s' -> drivers_grow (dispatcher (world s)) (dispatcher (world s')).
Proof.
  revert s; induction n as [|n IH]; intros s; simpl.
  - intros E. injection E as <-. apply drivers_grow_same; reflexivity.
  - destruct (sim_step s) as [[e s1]|] eqn:Es; [|discriminate]. intros Hn.
    apply (drivers_grow_trans _ (dispatcher (world s1))); [|apply IH, Hn].
    unfold sim_step in Es. destruct (pq_remove (events s)) as [[e0 q']|]; [|discriminate].
    pose proof (do_event_grow e0 (world s)) as Hg.
    destruct (do_event e0 (world s)) as [w' new]. injection Es as _ <-. exact Hg.
Qed.

(** In every state of a run, every driver of the dispatcher's idle list
    is also in its total list. *)
Theorem idle_in_total (rs : heap Rider) (ds : heap Driver) (init : list Event)
  (n : nat) (s : Sim) :
  steps n (initial rs ds init) = Some s ->
  incl (idle (dispatcher (world s))) (total (dispatcher (world s))).
Proof.
  intros Hn. destruct (steps_grow n _ s Hn) as (a & b & Ha & Hb & Hab).
  cbn in Ha, Hb. rewrite Ha, Hb. exact Hab.
Qed.

Lemma idle_in_total_witness :
  steps 3 (initial scenB_riders scenB_drivers scenB_events) = Some scenB_after3 /\
  incl (idle (dispatcher (world scenB_after3))) (total (dispatcher (world scenB_after3))).
Proof.
  assert (Hs : steps 3 (initial scenB_riders scenB_drivers scenB_events) = Some scenB_after3)
    by (vm_compute; reflexivity).
  split; [exact Hs | exact (idle_in_total _ _ _ 3 scenB_after3 Hs)].
Defined.

Lemma dict_append_get (k k' : string) (a : Activity) (d : list (string * list Activity)) :
  dict_get k' (dict_append k a d) =
    if String.eqb k' k
    then Some (match dict_get k d with Some v => v | None => [] end ++ [a])
    else dict_get k' d.
Proof.
  induction d as [|[k0 v] d IH]; simpl.
  - destruct (String.eqb k' k); reflexivity.
  - destruct (String.eqb k k0) eqn:E; simpl.
    + apply String.eqb_eq in E. subst k0.
      destruct (String.eqb k' k); reflexivity.
    + rewrite IH. destruct (String.eqb k' k) eqn:E'; [|reflexivity].
      apply String.eqb_eq in E'. subst k'. rewrite E. reflexivity.
Qed.

Lemma dict_append_keys (k : string) (a : Activity) (d : list (string * list Activity)) :
  NoDup (map fst d) -> NoDup (map fst (dict_append k a d)).
Proof.
  induction d as [|[k0 v] d IH]; simpl; intros Hnd.
  - constructor; [intros [] | constructor].
  - inversion Hnd as [|? ? Hk0 Hnd']; subst.
    destruct (String.eqb k k0) eqn:E; simpl; [exact Hnd|].
    constructor; [|exact (IH Hnd')].
    intros Hin. apply Hk0.
    assert (Hkeys : forall x, In x (map fst (dict_append k a d)) -> x = k \/ In x (map fst d)).
    { clear. induction d as [|[k1 v1] d IH]; simpl.
      - intros x [<- | []]. left; reflexivity.
      - destruct (String.eqb k k1); simpl; intros x [<- | Hx]; auto.
        destruct (IH x Hx); auto. }
    destruct (Hkeys k0 Hin) as [-> | H]; [|exact H].
    rewrite String.eqb_refl in E. discriminate.
Qed.

(** [Monitor.notify] appends the new activity to the identifier's list in
    its category, creating the list when the identifier is new; every
    other identifier's list and the other category are unchanged, and the
    identifiers of a category stay distinct. *)
Theorem notify_lookup (m : Monitor) (t : Z) (c : Category) (desc : Description)
  (identifier : string) (location : option Location) :
  let m' := notify m t c desc identifier location in
  dict_get identifier (category_dict m' c) =
    Some (match dict_get identifier (category_dict m c) with Some v => v | None => [] end
          ++ [mkActivity t desc identifier location]) /\
  (forall k, k <> identifier -> dict_get k (category_dict m' c) = dict_get k (category_dict m c)) /\
  (forall c', c' <> c -> category_dict m' c' = category_dict m c') /\
  (NoDup (map fst (category_dict m c)) -> NoDup (map fst (category_dict m' c))).
Proof.
  intros m'.
  assert (Hc : category_dict m' c =
               dict_append identifier (mkActivity t desc identifier location) (category_dict m c))
    by (unfold m', notify; destruct c; reflexivity).
  rewrite Hc. split; [|split; [|split]].
  - rewrite dict_append_get, String.eqb_refl. reflexivity.
  - intros k Hk. rewrite dict_append_get.
    destruct (String.eqb k identifier) eqn:E; [apply String.eqb_eq in E; contradiction | reflexivity].
  - intros c' Hc'. unfold m', notify. destruct c, c'; try reflexivity; contradiction.
  - apply dict_append_keys.
Qed.

Lemma path_ride_le (acts : list Activity) (p : Z) :
  path_distance acts = Ok p -> exists r, ride_path acts = Ok r /\ 0 <= r <= p.
Proof.
  revert p. induction acts as [|a rest IH]; intros p.
  - simpl. intros E. injection E as <-. exists 0. split; [reflexivity | lia].
  - destruct rest as [|b rest'].
    + simpl. intros E. injection E as <-. exists 0. split; [reflexivity | lia].
    + change (path_distance (a :: b :: rest')) with
        (match activity_distance a b with
         | Ok d => match path_distance (b :: rest') with Ok s => Ok (d + s) | Raise e => Raise e end
         | Raise e => Raise e end).
      change (ride_path (a :: b :: rest')) with
        (if description_eqb (a_description a) PICKUP && description_eqb (a_description b) DROPOFF
         then match activity_distance a b with
              | Ok d => match ride_path (b :: rest') with Ok s => Ok (d + s) | Raise e => Raise e end
              | Raise e => Raise e end
         else ride_path (b :: rest')).
      destruct (activity_distance a b) as [d|] eqn:Ed; [|discriminate].
      assert (Hd : 0 <= d).
      { unfold activity_distance in Ed.
        destruct (a_location a), (a_location b); try discriminate.
        injection Ed as <-. unfold manhattan_distance. lia. }
      destruct (path_distance (b :: rest')) as [s|]; [|discriminate].
      intros E. injection E as <-.
      destruct (IH s eq_refl) as (r & Hr & Hrs). rewrite Hr.
      destruct (_ && _); [exists (d + r) | exists r]; split; try reflexivity; lia.
Qed.

Lemma total_ride_loop (vals : list (list Activity)) (t0 c0 r0 t c : Z) :
  0 <= r0 <= t0 -> total_loop vals (t0, c0) = Ok (t, c) ->
  exists r, ride_loop vals r0 = Ok r /\ 0 <= r <= t /\ c <= c0 + Z.of_nat (List.length vals).
Proof.
  revert t0 c0 r0. induction vals as [|acts vals IH]; intros t0 c0 r0 H0; simpl.
  - intros E. injection E as <- <-. exists r0. split; [reflexivity | lia].
  - destruct (2 <=? Z.of_nat (List.length acts)) eqn:Hlen.
    + destruct (path_distance acts) as [p|] eqn:Hp; [|discriminate].
      destruct (path_ride_le acts p Hp) as (r1 & Hr1 & Hle). rewrite Hr1.
      intros Hl. destruct (IH (t0 + p) (c0 + 1) (r0 + r1) ltac:(lia) Hl) as (r & Hr & Hrt & Hc).
      exists r. split; [exact Hr | lia].
    + assert (Hr1 : ride_path acts = Ok 0).
      { apply Z.leb_gt in Hlen. destruct acts as [|a [|b acts]]; simpl in Hlen |- *;
          [reflexivity | reflexivity | lia]. }
      rewrite Hr1. intros Hl.
      destruct (IH t0 c0 (r0 + 0) ltac:(lia) Hl) as (r & Hr & Hrt & Hc).
      exists r. split; [exact Hr | lia].
Qed.

(** Whenever [_average_total_distance] returns (a quotient [t / c]),
    [_average_ride_distance] returns too (a quotient [r / n], [n] the
    number of drivers recorded), with [0 <= r <= t] and [0 < c <= n]: the
    average ride distance never exceeds the average total distance. *)
Theorem ride_distance_le_total (m : Monitor) (t c : Z) :
  _average_total_distance m = Ok (t, c) ->
  exists r, _average_ride_distance m = Ok (r, Z.of_nat (List.length (m_driver m))) /\
    0 <= r <= t /\ 0 < c <= Z.of_nat (List.length (m_driver m)) /\
    r * c <= t * Z.of_nat (List.length (m_driver m)).
Proof.
  unfold _average_total_distance, _average_ride_distance.
  destruct (total_loop (map snd (m_driver m)) (0, 0)) as [[t1 c1]|] eqn:Hl; [|discriminate].
  destruct (negb (c1 =? 0)) eqn:Hc; [|discriminate]. intros E. injection E as <- <-.
  destruct (total_ride_loop _ 0 0 0 t1 c1 ltac:(lia) Hl) as (r & Hr & Hrt & Hcn).
  rewrite length_map in Hcn.
  assert (Hc0 : 0 < c1).
  { clear -Hl Hc. apply negb_true_iff, Z.eqb_neq in Hc.
    assert (forall vals t0 c0, 0 <= c0 -> total_loop vals (t0, c0) = Ok (t1, c1) -> c0 <= c1) as Hg.
    { induction vals as [|acts vals IH]; intros t0 c0 H0; simpl.
      - intros E. injection E as _ <-. lia.
      - destruct (2 <=? _); [destruct (path_distance acts) as [p|]; [|discriminate]|];
          intros Hl'; [specialize (IH (t0 + p) (c0 + 1) ltac:(lia) Hl')
                      | specialize (IH _ _ H0 Hl')]; lia. }
    specialize (Hg _ 0 0 ltac:(lia) Hl). lia. }
  exists r. rewrite Hr.
  replace (negb (Z.of_nat (List.length (m_driver m)) =? 0)) with true
    by (symmetry; apply negb_true_iff, Z.eqb_neq; lia).
  split; [reflexivity|]. split; [lia | split; [lia | nia]].
Qed.

Lemma ride_distance_le_total_witness :
  _average_total_distance doc_monitor = Ok (18, 2) /\
  _average_ride_distance doc_monitor = Ok (14, 2).
Proof.
  assert (H : _average_total_distance doc_monitor = Ok (18, 2)) by (vm_compute; reflexivity).
  split; [exact H|].
  destruct (ride_distance_le_total doc_monitor 18 2 H) as (r & Hr & _).
  rewrite Hr. vm_compute in Hr. injection Hr as <-. reflexivity.
Defined.

(** The comparisons of events look at timestamps only and are
    consistent: of [a < b], [a == b], [a > b] exactly one holds; [>] is
    [<] with the arguments swapped, [<=] is [<] or [==], [>=] is [>] or
    [==], and [!=] is the negation of [==]. *)
Theorem event_comparisons (a b : Event) :
  (if event_lt a b then 1 else 0) + (if event_eq a b then 1 else 0)
    + (if event_gt a b then 1 else 0) = 1 /\
  event_gt a b = event_lt b a /\
  event_le a b = event_lt a b || event_eq a b /\
  event_ge a b = event_gt a b || event_eq a b /\
  event_ne a b = negb (event_eq a b) /\
  event_eq a b = event_eq b a.
Proof.
  unfold event_gt, event_ge, event_le, event_lt, event_ne, event_eq.
  destruct (Z.ltb_spec (timestamp a) (timestamp b)), (Z.eqb_spec (timestamp a) (timestamp b)),
    (Z.leb_spec (timestamp a) (timestamp b)), (Z.ltb_spec (timestamp b) (timestamp a)),
    (Z.eqb_spec (timestamp b) (timestamp a)); simpl;
    solve [repeat split | exfalso; lia].
Qed.

(** ** Time along a run *)

Lemma travel_time_ge0 (d : Driver) (dst : option Location) :
  0 <= d_speed d -> 0 <= get_travel_time d dst.
Proof.
  intros Hs. unfold get_travel_time.
  destruct dst as [dst|]; [|lia]. destruct (d_location d) as [l|]; [|lia].
  destruct (d_speed d =? 0) eqn:Ez; simpl; [lia|]. apply Z.eqb_neq in Ez.
  unfold py_round_div. replace (d_speed d <? 0) with false by (symmetry; apply Z.ltb_ge; lia).
  unfold round_half_even_pos.
  assert (0 <= manhattan_distance l dst / d_speed d)
    by (apply Z.div_pos; [unfold manhattan_distance; lia | lia]).
  destruct (Z.compare _ _); [destruct (Z.even _)|..]; lia.
Qed.

Lemma request_driver_heaps (w : World) (r : nat) :
  riders (fst (request_driver w r)) = riders w /\ drivers (fst (request_driver w r)) = drivers w /\
  monitor (fst (request_driver w r)) = monitor w.
Proof. unfold request_driver. cbv zeta. destruct (idle _); repeat split. Qed.

Lemma request_rider_heaps (w : World) (d : nat) :
  riders (fst (request_rider w d)) = riders w /\ drivers (fst (request_rider w d)) = drivers w /\
  monitor (fst (request_rider w d)) = monitor w.
Proof. unfold request_rider. destruct (negb _); repeat split. Qed.

Lemma upd_speed (ds : heap Driver) (d : nat) (v : Driver) :
  d_speed v = d_speed (ds d) -> forall x, d_speed (upd ds d v x) = d_speed (ds x).
Proof. intros H x. unfold upd. destruct (Nat.eqb x d) eqn:E; [apply Nat.eqb_eq in E; subst; exact H | reflexivity]. Qed.

Lemma upd_patience (rs : heap Rider) (r : nat) (v : Rider) :
  r_patience v = r_patience (rs r) -> forall x, r_patience (upd rs r v x) = r_patience (rs x).
Proof. intros H x. unfold upd. destruct (Nat.eqb x r) eqn:E; [apply Nat.eqb_eq in E; subst; exact H | reflexivity]. Qed.

Lemma notified_at_trans (t : Z) (m1 m2 m3 : Monitor) :
  notified_at t m1 m2 -> notified_at t m2 m3 -> notified_at t m1 m3.
Proof. intros H12 H23. induction H23; [exact H12 | constructor; auto]. Qed.

Lemma notified_once (t : Z) (m : Monitor) (c : Category) (desc : Description) (i : string)
  (l : option Location) : notified_at t m (notify m t c desc i l).
Proof. apply na_step, na_refl. Qed.

Lemma start_drive_facts (d : Driver) (l : Location) (d' : Driver) (tt : Z) :
  start_drive d l = (d', tt) -> d_speed d' = d_speed d /\ (0 <= d_speed d -> 0 <= tt).
Proof.
  unfold start_drive. intros E.
  pose proof (travel_time_ge0 (mkDriver (d_identifier d) (d_location d) (d_speed d)
                                 (d_destination d) false) (Some l)) as H.
  injection E as <- <-. split; [reflexivity | exact H].
Qed.

Lemma start_ride_facts (d : Driver) (r : Rider) (d' : Driver) (tt : Z) :
  start_ride d r = (d', tt) -> d_speed d' = d_speed d /\ (0 <= d_speed d -> 0 <= tt).
Proof.
  unfold start_ride. intros E.
  pose proof (travel_time_ge0 (mkDriver (d_identifier d) (d_location d) (d_speed d)
                                 (Some (r_destination r)) false) (Some (r_destination r))) as H.
  injection E as <- <-. split; [reflexivity | exact H].
Qed.

Lemma do_event_times (e : Event) (w w' : World) (new : list Event) :
  (forall x, 0 <= d_speed (drivers w x)) -> (forall x, 0 <= r_patience (riders w x)) ->
  do_event e w = (w', new) ->
  (forall x, d_speed (drivers w' x) = d_speed (drivers w x)) /\
  (forall x, r_patience (riders w' x) = r_patience (riders w x)) /\
  (forall e', In e' new -> timestamp e <= timestamp e') /\
  notified_at (timestamp e) (monitor w) (monitor w').
Proof.
  intros Hsp Hpa. destruct e as [t r|t d|t r|t r d|t r d]; cbn [do_event timestamp].
  - unfold rider_request_do.
    set (w1 := notify_w w t RIDER REQUEST _ _).
    pose proof (request_driver_heaps w1 r) as (Hr & Hd & Hm).
    destruct (request_driver w1 r) as [w2 [d|]]; cbn [fst] in Hr, Hd, Hm.
    + destruct (start_drive (drivers w2 d) (r_origin (riders w2 r))) as [d' tt] eqn:Es.
      assert (Htt : 0 <= tt /\ d_speed d' = d_speed (drivers w2 d)).
      { apply start_drive_facts in Es as [Es1 Es2]. split; [apply Es2 | exact Es1].
        rewrite Hd. apply Hsp. }
      destruct Htt as [Htt Hsd].
      intros E. injection E as <- <-. cbn [drivers riders monitor set_driver].
      split; [intros x; rewrite (upd_speed _ d d' Hsd), Hd; reflexivity|].
      split; [intros x; rewrite Hr; reflexivity|].
      split.
      * intros e' [<- | [<- | []]]; cbn [timestamp]; [lia|].
        rewrite Hr. unfold w1, notify_w, set_monitor. cbn [riders]. specialize (Hpa r). lia.
      * rewrite Hm. apply notified_once.
    + intros E. injection E as <- <-. rewrite Hd, Hr, Hm.
      split; [reflexivity | split; [reflexivity | split]].
      * intros e' [<- | []]. cbn [timestamp]. unfold w1, notify_w, set_monitor. cbn [riders]. specialize (Hpa r). lia.
      * apply notified_once.
  - unfold driver_request_do.
    set (w1 := notify_w w t DRIVER REQUEST _ _).
    pose proof (request_rider_heaps w1 d) as (Hr & Hd & Hm).
    destruct (request_rider w1 d) as [w2 [r|]]; cbn [fst] in Hr, Hd, Hm.
    + destruct (start_drive (drivers w2 d) (r_origin (riders w2 r))) as [d' tt] eqn:Es.
      assert (Htt : 0 <= tt /\ d_speed d' = d_speed (drivers w2 d)).
      { apply start_drive_facts in Es as [Es1 Es2]. split; [apply Es2 | exact Es1].
        rewrite Hd. apply Hsp. }
      destruct Htt as [Htt Hsd].
      intros E. injection E as <- <-. cbn [drivers riders monitor set_driver].
      split; [intros x; rewrite (upd_speed _ d d' Hsd), Hd; reflexivity|].
      split; [intros x; rewrite Hr; reflexivity|].
      split.
      * intros e' [<- | []]; cbn [timestamp]. lia.
      * rewrite Hm. apply notified_once.
    + intros E. injection E as <- <-. rewrite Hd, Hr, Hm.
      split; [reflexivity | split; [reflexivity | split]].
      * intros e' [].
      * apply notified_once.
  - unfold cancellation_do. destruct (negb _); intros E; injection E as <- <-;
      cbn [drivers riders monitor set_driver set_rider set_dispatcher notify_w set_monitor].
    + split; [reflexivity | split; [|split; [intros e' [] | apply notified_once]]].
      apply upd_patience. reflexivity.
    + split; [reflexivity | split; [reflexivity | split; [intros e' [] | apply notified_once]]].
  - unfold pickup_do. destruct (negb _).
    + destruct (start_ride _ _) as [d' tt] eqn:Es.
      assert (Htt : 0 <= tt /\ d_speed d' = d_speed (drivers w d)).
      { apply start_ride_facts in Es as [Es1 Es2].
        cbn [drivers notify_w set_monitor set_driver] in Es1, Es2.
        unfold upd in Es1, Es2. rewrite Nat.eqb_refl in Es1, Es2. cbn [d_speed end_drive] in Es1, Es2.
        split; [apply Es2, Hsp | exact Es1]. }
      destruct Htt as [Htt Hsd].
      intros E. injection E as <- <-. cbn [drivers riders monitor set_driver set_rider
        set_dispatcher notify_w set_monitor].
      split.
      { intros x. rewrite (upd_speed _ d d'); [apply upd_speed; reflexivity|].
        rewrite Hsd. unfold upd. rewrite Nat.eqb_refl. reflexivity. }
      split; [apply upd_patience; reflexivity|].
      split; [intros e' [<- | []]; cbn [timestamp]; lia|].
      apply na_step, na_step, na_refl.
    + intros E. injection E as <- <-.
      cbn [drivers riders monitor set_driver set_rider set_dispatcher notify_w set_monitor].
      split; [apply upd_speed; reflexivity|]. split; [reflexivity|].
      split; [intros e' [<- | []]; cbn [timestamp]; lia|].
      apply na_step, na_step, na_refl.
  - unfold dropoff_do. intros E. injection E as <- <-.
      cbn [drivers riders monitor set_driver set_rider set_dispatcher notify_w set_monitor].
    split; [apply upd_speed; reflexivity|]. split; [reflexivity|].
    split; [intros e' [<- | []]; cbn [timestamp]; lia|].
    apply notified_once.
Qed.

(** When no driver has a negative speed and no rider a negative patience,
    doing an event never schedules a new event earlier than itself. *)
Theorem do_event_not_earlier (e : Event) (w : World) :
  (forall x, 0 <= d_speed (drivers w x)) -> (forall x, 0 <= r_patience (riders w x)) ->
  forall e', In e' (snd (do_event e w)) -> timestamp e <= timestamp e'.
Proof.
  intros Hsp Hpa. destruct (do_event e w) as [w' new] eqn:E. cbn [snd].
  apply (do_event_times e w w' new Hsp Hpa E).
Qed.

Lemma do_event_not_earlier_witness :
  ((forall x, 0 <= d_speed (scenB_drivers x)) /\ (forall x, 0 <= r_patience (scenB_riders x))) /\
  (forall e', In e' (snd (do_event (RiderRequest 1 0) (world (scenB_after 1)))) -> 1 <= timestamp e').
Proof.
  assert (Hsp : forall x, 0 <= d_speed (drivers (world (scenB_after 1)) x))
    by (intros x; vm_compute; discriminate).
  assert (Hpa : forall x, 0 <= r_patience (riders (world (scenB_after 1)) x))
    by (intros x; vm_compute; discriminate).
  split; [split; intros x; vm_compute; discriminate|].
  exact (do_event_not_earlier (RiderRequest 1 0) _ Hsp Hpa).
Defined.

Lemma dict_append_in (k k' : string) (a : Activity) (acts : list Activity)
  (d : list (string * list Activity)) :
  In (k', acts) (dict_append k a d) ->
  In (k', acts) d \/ acts = [a] \/ (exists old, In (k', old) d /\ acts = old ++ [a]).
Proof.
  induction d as [|[k0 v] d IH]; simpl.
  - intros [E | []]. injection E as _ <-. right; left; reflexivity.
  - destruct (String.eqb k k0) eqn:Ek; simpl.
    + intros [E | H]; [|left; right; exact H].
      injection E as <- <-. right; right. exists v. split; [left; reflexivity | reflexivity].
    + intros [E | H]; [left; left; exact E|].
      destruct (IH H) as [H1 | [H1 | (old & H1 & H2)]].
      * left; right; exact H1.
      * right; left; exact H1.
      * right; right. exists old. split; [right; exact H1 | exact H2].
Qed.

Lemma sorted_snoc (acts : list Activity) (a : Activity) :
  Sorted (fun x y => a_time x <= a_time y) acts ->
  Forall (fun x => a_time x <= a_time a) acts ->
  Sorted (fun x y => a_time x <= a_time y) (acts ++ [a]).
Proof.
  induction acts as [|x acts IH]; simpl; intros Hs Hf.
  - repeat constructor.
  - inversion Hs as [|? ? Hs' Hhd]; subst. inversion Hf as [|? ? Hx Hf']; subst.
    constructor; [apply IH; assumption|].
    destruct acts as [|y acts]; simpl; constructor.
    + exact Hx.
    + inversion Hhd; assumption.
Qed.

Lemma monitor_upto_mono (T T' : Z) (m : Monitor) :
  monitor_upto T m -> T <= T' -> monitor_upto T' m.
Proof.
  intros H HT c k acts Hin. destruct (H c k acts Hin) as [Hs Hf].
  split; [exact Hs|]. eapply Forall_impl; [|exact Hf]. intros a Ha. simpl in Ha. lia.
Qed.

Lemma monitor_upto_notify (T t : Z) (m : Monitor) (c : Category) (desc : Description)
  (i : string) (l : option Location) :
  monitor_upto T m -> T <= t -> monitor_upto t (notify m t c desc i l).
Proof.
  intros H HT c' k acts Hin.
  assert (Hd : forall d, (forall k acts, In (k, acts) d ->
                 Sorted (fun a b => a_time a <= a_time b) acts /\ Forall (fun a => a_time a <= T) acts) ->
               In (k, acts) (dict_append i (mkActivity t desc i l) d) ->
               Sorted (fun a b => a_time a <= a_time b) acts /\ Forall (fun a => a_time a <= t) acts).
  { intros d Hd Hin'. apply dict_append_in in Hin' as [H1 | [-> | (old & H1 & ->)]].
    - destruct (Hd k acts H1) as [Hs Hf]. split; [exact Hs|].
      eapply Forall_impl; [|exact Hf]. intros a Ha. simpl in Ha. lia.
    - split; repeat constructor. simpl. lia.
    - destruct (Hd k old H1) as [Hs Hf]. split.
      + apply sorted_snoc; [exact Hs|]. apply Forall_forall. intros a Ha.
        apply (proj1 (Forall_forall _ _) Hf) in Ha. simpl in *. lia.
      + apply Forall_app. split; [|repeat constructor; simpl; lia].
        eapply Forall_impl; [|exact Hf]. intros a Ha. simpl in Ha. lia. }
  destruct c, c'; cbn [notify category_dict m_rider m_driver] in Hin |- *;
    first [ apply (Hd _ (H RIDER)); exact Hin | apply (Hd _ (H DRIVER)); exact Hin
          | apply (monitor_upto_mono T t m H HT RIDER k acts); exact Hin
          | apply (monitor_upto_mono T t m H HT DRIVER k acts); exact Hin ].
Qed.

Lemma monitor_upto_notified (T t : Z) (m m' : Monitor) :
  monitor_upto T m -> T <= t -> notified_at t m m' -> monitor_upto t m'.
Proof.
  intros H HT Hn. induction Hn as [m | m m1 c desc i l Hn IH].
  - exact (monitor_upto_mono T t m H HT).
  - apply (monitor_upto_notify t t); [exact (IH H) | lia].
Qed.

Lemma pq_add_ts_sorted (x : Event) (q : list Event) :
  StronglySorted (fun a b => timestamp a <= timestamp b) q ->
  StronglySorted (fun a b => timestamp a <= timestamp b) (pq_add timestamp x q).
Proof.
  induction q as [|y q IH]; intros Hs; simpl.
  - repeat constructor.
  - inversion Hs as [|? ? Hs' Hall]; subst.
    destruct (timestamp x <? timestamp y) eqn:Hxy.
    + apply Z.ltb_lt in Hxy. constructor; [exact Hs|].
      constructor; [lia|]. apply Forall_forall. intros a Ha.
      apply (proj1 (Forall_forall _ _) Hall) in Ha. lia.
    + apply Z.ltb_ge in Hxy. constructor; [apply IH, Hs'|].
      apply Forall_forall. intros z Hz.
      apply (Permutation_in _ (pq_add_key_perm timestamp x q)) in Hz as [<- | Hz]; [lia|].
      exact (proj1 (Forall_forall _ _) Hall z Hz).
Qed.

Lemma pq_add_all_ts_sorted (xs q : list Event) :
  StronglySorted (fun a b => timestamp a <= timestamp b) q ->
  StronglySorted (fun a b => timestamp a <= timestamp b) (pq_add_all timestamp xs q).
Proof.
  revert q; induction xs as [|x xs IH]; intros q Hs; [exact Hs|].
  unfold pq_add_all in *. simpl. apply IH, pq_add_ts_sorted, Hs.
Qed.

Lemma events_lower_bound (l : list Event) : exists T, forall e, In e l -> T <= timestamp e.
Proof.
  induction l as [|e l [T HT]]; [exists 0; intros e []|].
  exists (Z.min T (timestamp e)). intros e' [<- | He']; [lia|]. specialize (HT e' He'). lia.
Qed.

Lemma tinv_initial (rs : heap Rider) (ds : heap Driver) (init : list Event) :
  (forall x, 0 <= d_speed (ds x)) -> (forall x, 0 <= r_patience (rs x)) ->
  exists T, TInv T (initial rs ds init).
Proof.
  intros Hsp Hpa. destruct (events_lower_bound init) as [T HT]. exists T.
  constructor; cbn [events world monitor drivers riders].
  - apply pq_add_all_ts_sorted. constructor.
  - intros e He. apply (Permutation_in _ (pq_add_all_key_perm timestamp init [])) in He.
    rewrite app_nil_r in He. apply HT, He.
  - intros [] k acts [].
  - exact Hsp.
  - exact Hpa.
Qed.

Lemma tinv_step (T : Z) (s s' : Sim) (e : Event) :
  TInv T s -> sim_step s = Some (e, s') ->
  T <= timestamp e /\ TInv (timestamp e) s'.
Proof.
  intros [Hso Haf Hmo Hsp Hpa]. unfold sim_step.
  destruct (events s) as [|e0 q'] eqn:Hev; [discriminate|]. cbn [pq_remove].
  destruct (do_event e0 (world s)) as [w' new] eqn:Edo.
  intros E. injection E as <- <-.
  assert (HT : T <= timestamp e0) by (apply Haf; left; reflexivity).
  destruct (do_event_times e0 (world s) w' new Hsp Hpa Edo) as (Hs' & Hp' & Hnew & Hn).
  inversion Hso as [|? ? Hso' Hall]; subst.
  split; [exact HT|]. constructor; cbn [events world].
  - apply pq_add_all_ts_sorted, Hso'.
  - intros e' He'. apply (Permutation_in _ (pq_add_all_key_perm timestamp new q')) in He'.
    apply in_app_or in He' as [He' | He']; [apply Hnew, He'|].
    exact (proj1 (Forall_forall _ _) Hall e' He').
  - exact (monitor_upto_notified T _ _ _ Hmo HT Hn).
  - intros x. rewrite Hs'. apply Hsp.
  - intros x. rewrite Hp'. apply Hpa.
Qed.

Lemma tinv_steps (n : nat) (T : Z) (s s' : Sim) :
  TInv T s -> steps n s = Some s' -> exists T', TInv T' s'.
Proof.
  revert T s; induction n as [|n IH]; intros T s HI; simpl.
  - intros E. injection E as <-. exists T. exact HI.
  - destruct (sim_step s) as [[e s1]|] eqn:Es; [|discriminate].
    destruct (tinv_step T s s1 e HI Es) as [_ HI1]. exact (IH _ _ HI1).
Qed.

(** When no driver has a negative speed and no rider a negative patience,
    the run removes events in non-decreasing timestamp order: of two
    consecutive iterations of its loop, the second event is not earlier
    than the first. *)
Theorem run_timestamps_nondecreasing (rs : heap Rider) (ds : heap Driver)
  (init : list Event) (n : nat) (s s1 s2 : Sim) (e e' : Event) :
  (forall x, 0 <= d_speed (ds x)) -> (forall x, 0 <= r_patience (rs x)) ->
  steps n (initial rs ds init) = Some s ->
  sim_step s = Some (e, s1) -> sim_step s1 = Some (e', s2) ->
  timestamp e <= timestamp e'.
Proof.
  intros Hsp Hpa Hn H1 H2.
  destruct (tinv_initial rs ds init Hsp Hpa) as [T0 HI0].
  destruct (tinv_steps n T0 _ s HI0 Hn) as [T HI].
  destruct (tinv_step T s s1 e HI H1) as [_ HI1].
  destruct (tinv_step (timestamp e) s1 s2 e' HI1 H2) as [Hle _]. exact Hle.
Qed.

Lemma run_timestamps_nondecreasing_witness :
  ((forall x, 0 <= d_speed (scenB_drivers x)) /\ (forall x, 0 <= r_patience (scenB_riders x))) /\
  steps 3 (initial scenB_riders scenB_drivers scenB_events) = Some (scenB_after 3) /\
  sim_step (scenB_after 3) = Some (Cancellation 5 0, scenB_after 4) /\
  sim_step (scenB_after 4) = Some (Dropoff 6 0 0, scenB_after 5) /\
  timestamp (Cancellation 5 0) <= timestamp (Dropoff 6 0 0).
Proof.
  assert (Hsp : forall x, 0 <= d_speed (scenB_drivers x)) by (intros x; vm_compute; discriminate).
  assert (Hpa : forall x, 0 <= r_patience (scenB_riders x)) by (intros x; vm_compute; discriminate).
  assert (Hn : steps 3 (initial scenB_riders scenB_drivers scenB_events) = Some (scenB_after 3))
    by (vm_compute; reflexivity).
  assert (H1 : sim_step (scenB_after 3) = Some (Cancellation 5 0, scenB_after 4))
    by (vm_compute; reflexivity).
  assert (H2 : sim_step (scenB_after 4) = Some (Dropoff 6 0 0, scenB_after 5))
    by (vm_compute; reflexivity).
  split; [split; assumption|]. split; [exact Hn|]. split; [exact H1|]. split; [exact H2|].
  exact (run_timestamps_nondecreasing _ _ _ 3 _ _ _ _ _ Hsp Hpa Hn H1 H2).
Defined.

Lemma wait_loop_nonneg (vals : list (list Activity)) (acc : Z * Z) :
  (forall acts, In acts vals -> Sorted (fun a b => a_time a <= a_time b) acts) ->
  0 <= fst acc -> 0 <= fst (wait_loop vals acc).
Proof.
  revert acc; induction vals as [|acts vals IH]; intros acc Hs H0; simpl; [exact H0|].
  assert (Hs' : forall acts', In acts' vals -> Sorted (fun a b => a_time a <= a_time b) acts')
    by (intros; apply Hs; right; assumption).
  destruct acts as [|a0 [|a1 rest]]; try (apply IH; assumption).
  apply IH; [exact Hs'|]. simpl.
  pose proof (Hs _ (or_introl eq_refl)) as Hsa. inversion Hsa as [|? ? _ Hhd]; subst.
  inversion Hhd; subst. lia.
Qed.

(** When no driver has a negative speed and no rider a negative patience,
    in every state of a run each activity list of the monitor is in time
    order; so the total wait time summed by [_average_wait_time] (the
    second activity's time minus the first's, for every rider with two
    activities) is never negative. *)
Theorem monitor_chronological (rs : heap Rider) (ds : heap Driver)
  (init : list Event) (n : nat) (s : Sim) :
  (forall x, 0 <= d_speed (ds x)) -> (forall x, 0 <= r_patience (rs x)) ->
  steps n (initial rs ds init) = Some s ->
  (forall c k acts, In (k, acts) (category_dict (monitor (world s)) c) ->
     Sorted (fun a b => a_time a <= a_time b) acts) /\
  (forall wait_time count, _average_wait_time (monitor (world s)) = Ok (wait_time, count) ->
     0 <= wait_time).
Proof.
  intros Hsp Hpa Hn.
  destruct (tinv_initial rs ds init Hsp Hpa) as [T0 HI0].
  destruct (tinv_steps n T0 _ s HI0 Hn) as [T [_ _ Hmo _ _]].
  assert (Hsorted : forall c k acts, In (k, acts) (category_dict (monitor (world s)) c) ->
                      Sorted (fun a b => a_time a <= a_time b) acts)
    by (intros c k acts Hin; exact (proj1 (Hmo c k acts Hin))).
  split; [exact Hsorted|].
  intros wt cnt. unfold _average_wait_time.
  pose proof (wait_loop_nonneg (map snd (m_rider (monitor (world s)))) (0, 0)) as Hw.
  destruct (wait_loop _ _) as [wt' cnt'].
  destruct (negb _); [|discriminate]. intros E. injection E as <- <-.
  apply Hw; [|simpl; lia].
  intros acts Hin. apply in_map_iff in Hin as ([k acts'] & <- & Hin).
  exact (Hsorted RIDER k acts' Hin).
Qed.

Lemma monitor_chronological_witness :
  ((forall x, 0 <= d_speed (scenB_drivers x)) /\ (forall x, 0 <= r_patience (scenB_riders x))) /\
  steps 5 (initial scenB_riders scenB_drivers scenB_events) = Some (scenB_after 5) /\
  _average_wait_time (monitor (world (scenB_after 5))) = Ok (0, 1) /\
  (forall k acts, In (k, acts) (m_driver (monitor (world (scenB_after 5)))) ->
     Sorted (fun a b => a_time a <= a_time b) acts).
Proof.
  assert (Hsp : forall x, 0 <= d_speed (scenB_drivers x)) by (intros x; vm_compute; discriminate).
  assert (Hpa : forall x, 0 <= r_patience (scenB_riders x)) by (intros x; vm_compute; discriminate).
  assert (Hn : steps 5 (initial scenB_riders scenB_drivers scenB_events) = Some (scenB_after 5))
    by (vm_compute; reflexivity).
  split; [split; assumption | split; [exact Hn | split; [vm_compute; reflexivity|]]].
  exact (proj1 (monitor_chronological _ _ _ 5 _ Hsp Hpa Hn) DRIVER).
Defined.

(** [RiderRequest.do] always schedules the rider's [Cancellation] at the
    request time plus the patience, even when a driver is found; the rider
    is appended to the waiting list.  With no idle driver nothing else
    happens; otherwise an idle driver with the least travel time to the
    rider's origin starts driving there, and a [Pickup] at the request time
    plus that travel time comes before the [Cancellation]. *)
Theorem rider_request_do_events (t : Z) (r : nat) (w : World) :
  let '(w', evs) := rider_request_do t r w in
  waiting (dispatcher w') = waiting (dispatcher w) ++ [r] /\
  riders w' = riders w /\
  match idle (dispatcher w) with
  | [] => evs = [Cancellation (t + r_patience (riders w r)) r] /\ drivers w' = drivers w
  | _ :: _ =>
      exists d, In d (idle (dispatcher w)) /\
        (forall d', In d' (idle (dispatcher w)) -> eta w r d <= eta w r d') /\
        evs = [Pickup (t + eta w r d) r d; Cancellation (t + r_patience (riders w r)) r] /\
        d_destination (drivers w' d) = Some (r_origin (riders w r)) /\
        d_is_idle (drivers w' d) = false /\
        d_location (drivers w' d) = d_location (drivers w d)
  end.
Proof.
  unfold rider_request_do.
  set (w1 := notify_w w t RIDER REQUEST _ _).
  assert (He : eta w1 r = eta w r) by reflexivity.
  pose proof (request_driver_heaps w1 r) as (Hr & Hd & _).
  pose proof (request_driver_find w1 r) as Hfind.
  cbv zeta in Hfind. rewrite He in Hfind.
  destruct (request_driver w1 r) as [w2 found] eqn:Hrd.
  cbn [fst] in Hr, Hd. change (riders w1) with (riders w) in Hr.
  change (drivers w1) with (drivers w) in Hd.
  unfold request_driver in Hrd. rewrite He in Hrd.
  change (dispatcher w1) with (dispatcher w) in Hrd, Hfind.
  destruct (idle (dispatcher w)) as [|d0 l] eqn:Hidle.
  - injection Hrd as <- <-. cbn. repeat split.
  - destruct Hfind as [d Hf]; [discriminate|].
    rewrite Hf in Hrd. injection Hrd as Hw2 <-.
    destruct (find_split _ _ _ Hf) as (pre & suf & Hl & Hx & _).
    destruct (py_min_spec (map (eta w r) (d0 :: l))) as [_ Hmin]; [discriminate|].
    apply Z.eqb_eq in Hx.
    unfold start_drive, set_driver. cbn [riders drivers dispatcher d_destination d_is_idle d_location].
    rewrite Hr, Hd.
    split; [rewrite <- Hw2; reflexivity | split; [reflexivity|]].
    exists d. split; [rewrite Hl; apply in_or_app; right; left; reflexivity|].
    split; [intros d' Hd'; rewrite Hx; apply Hmin, in_map, Hd'|].
    unfold upd. rewrite Nat.eqb_refl. cbn [d_destination d_is_idle d_location].
    split; [|repeat split].
    unfold eta. reflexivity.
Qed.

(** [DriverRequest.do] registers the driver on its first request (appended
    to [total], and to [idle] if it is idle), and leaves the rider lists
    unchanged: the first waiting rider, if any, stays in the waiting list.
    With no waiting rider it returns no event; otherwise the driver starts
    driving from where it is to that rider's origin and a [Pickup] is
    returned at the request time plus that travel time. *)
Theorem driver_request_do_events (t : Z) (d : nat) (w : World) :
  let '(w', evs) := driver_request_do t d w in
  waiting (dispatcher w') = waiting (dispatcher w) /\
  cancelled (dispatcher w') = cancelled (dispatcher w) /\
  satisfied (dispatcher w') = satisfied (dispatcher w) /\
  riders w' = riders w /\
  (if driver_in w d (total (dispatcher w))
   then idle (dispatcher w') = idle (dispatcher w) /\ total (dispatcher w') = total (dispatcher w)
   else idle (dispatcher w') =
          (if d_is_idle (drivers w d) then idle (dispatcher w) ++ [d] else idle (dispatcher w)) /\
        total (dispatcher w') = total (dispatcher w) ++ [d]) /\
  match waiting (dispatcher w) with
  | [] => evs = [] /\ drivers w' = drivers w
  | r :: _ =>
      evs = [Pickup (t + get_travel_time (drivers w d) (Some (r_origin (riders w r)))) r d] /\
      d_destination (drivers w' d) = Some (r_origin (riders w r)) /\
      d_is_idle (drivers w' d) = false /\
      d_location (drivers w' d) = d_location (drivers w d)
  end.
Proof.
  unfold driver_request_do, request_rider, driver_in.
  cbn [notify_w set_monitor set_dispatcher riders drivers dispatcher].
  destruct (py_in (drivers w) driver_eqb d (total (dispatcher w))); cbn [negb].
  - destruct (waiting (dispatcher w)) as [|r l] eqn:Hw.
    + cbn. repeat split; assumption.
    + unfold start_drive, set_driver, upd. cbn. rewrite Nat.eqb_refl. repeat split; assumption.
  - destruct (waiting (dispatcher w)) as [|r l] eqn:Hw.
    + cbn. repeat split; assumption.
    + unfold start_drive, set_driver, upd. cbn. rewrite Nat.eqb_refl. repeat split; assumption.
Qed.

(** *** Parsing the event file *)

Lemma digit_char_facts (d : Z) :
  0 <= d <= 9 ->
  py_isspace (digit_char d) = false /\ Ascii.eqb (digit_char d) " "%char = false /\
  Ascii.eqb (digit_char d) "-"%char = false /\ Ascii.eqb (digit_char d) "+"%char = false /\
  Ascii.eqb (digit_char d) "#"%char = false /\
  (forall s acc b, int_digits (String (digit_char d) s) acc b = int_digits s (acc * 10 + d) true).
Proof.
  intros Hd.
  assert (d = 0 \/ d = 1 \/ d = 2 \/ d = 3 \/ d = 4 \/ d = 5 \/ d = 6 \/ d = 7 \/ d = 8 \/ d = 9)
    as Hc by lia.
  repeat destruct Hc as [-> | Hc]; [..| subst d];
    (split; [reflexivity | split; [reflexivity | split; [reflexivity |
     split; [reflexivity | split; [reflexivity | intros s acc b; reflexivity]]]]]).
Qed.

Lemma z_digits_spec (fuel : nat) (n : Z) :
  0 <= n < Z.of_nat fuel ->
  z_digits fuel n <> [] /\ Forall (fun d => 0 <= d <= 9) (z_digits fuel n) /\
  fold_left (fun a d => a * 10 + d) (z_digits fuel n) 0 = n.
Proof.
  revert n; induction fuel as [|f IH]; intros n Hn; [lia|].
  cbn [z_digits]. destruct (Z.ltb_spec n 10) as [Hlt | Hge].
  - split; [discriminate | split; [constructor; [lia | constructor] | reflexivity]].
  - assert (Hq : 0 <= n / 10 < Z.of_nat f).
    { split; [apply Z.div_pos; lia|].
      assert (n / 10 < n) by (apply Z.div_lt; lia). lia. }
    destruct (IH (n / 10) Hq) as (_ & Hf & Hv).
    split; [destruct (z_digits f (n / 10)); discriminate|].
    split.
    + apply Forall_app; split; [exact Hf|].
      constructor; [|constructor]. pose proof (Z.mod_pos_bound n 10 ltac:(lia)). lia.
    + rewrite fold_left_app, Hv. cbn. pose proof (Z.div_mod n 10 ltac:(lia)). lia.
Qed.

Lemma dec_digits (n : Z) :
  0 <= n ->
  exists ds, dec n = string_of_digits ds /\ ds <> [] /\ Forall (fun d => 0 <= d <= 9) ds /\
    fold_left (fun a d => a * 10 + d) ds 0 = n.
Proof.
  intros Hn. exists (z_digits (S (Z.to_nat n)) n). split; [reflexivity|].
  apply z_digits_spec. rewrite Nat2Z.inj_succ, Z2Nat.id; lia.
Qed.

Lemma int_digits_string_of_digits (ds : list Z) (acc : Z) (b : bool) :
  ds <> [] -> Forall (fun d => 0 <= d <= 9) ds ->
  int_digits (string_of_digits ds) acc b = Some (fold_left (fun a d => a * 10 + d) ds acc).
Proof.
  revert acc b; induction ds as [|d ds IH]; intros acc b Hne Hf; [congruence|].
  inversion Hf as [|? ? Hd Hf']; subst.
  cbn [string_of_digits fold_left].
  rewrite (proj2 (proj2 (proj2 (proj2 (proj2 (digit_char_facts d Hd)))))).
  destruct ds as [|d' ds]; [reflexivity|].
  apply IH; [discriminate | exact Hf'].
Qed.

Lemma has_space_digits (ds : list Z) :
  Forall (fun d => 0 <= d <= 9) ds -> has_space (string_of_digits ds) = false.
Proof.
  induction 1 as [|d ds Hd _ IH]; [reflexivity|].
  cbn [string_of_digits has_space].
  rewrite (proj1 (proj2 (digit_char_facts d Hd))), IH. reflexivity.
Qed.

Lemma rstrip_digits (ds : list Z) :
  ds <> [] -> Forall (fun d => 0 <= d <= 9) ds ->
  py_rstrip (string_of_digits ds) = string_of_digits ds.
Proof.
  induction ds as [|d ds IH]; intros Hne Hf; [congruence|].
  inversion Hf as [|? ? Hd Hf']; subst.
  cbn [string_of_digits py_rstrip].
  destruct ds as [|d' ds].
  - cbn [string_of_digits py_rstrip]. rewrite (proj1 (digit_char_facts d Hd)). reflexivity.
  - rewrite IH by (discriminate || exact Hf'). reflexivity.
Qed.

Lemma rstrip_app (a b : string) :
  py_rstrip b = b -> b <> EmptyString -> py_rstrip (a ++ b)%string = (a ++ b)%string.
Proof.
  intros Hb Hne. induction a as [|x a IH]; [exact Hb|].
  cbn [append py_rstrip]. rewrite IH. destruct a; [destruct b; [congruence | reflexivity] | reflexivity].
Qed.

Lemma rstrip_app_ne (a b : string) :
  py_rstrip b = b /\ b <> EmptyString ->
  py_rstrip (a ++ b)%string = (a ++ b)%string /\ (a ++ b)%string <> EmptyString.
Proof.
  intros [Hb Hne]. split; [apply rstrip_app; assumption|].
  destruct a; [exact Hne | discriminate].
Qed.

Lemma split_app_space (a b : string) :
  has_space a = false -> py_split_space (a ++ String " "%char b)%string = a :: py_split_space b.
Proof.
  induction a as [|x a IH]; intros Ha; [reflexivity|].
  cbn [has_space] in Ha. apply orb_false_iff in Ha as [Hx Ha].
  cbn [append py_split_space]. rewrite IH by exact Ha. rewrite Hx. reflexivity.
Qed.

Lemma split_no_space (a : string) :
  has_space a = false -> py_split_space a = [a].
Proof.
  induction a as [|x a IH]; intros Ha; [reflexivity|].
  cbn [has_space] in Ha. apply orb_false_iff in Ha as [Hx Ha].
  cbn [py_split_space]. rewrite IH by exact Ha. rewrite Hx. reflexivity.
Qed.

Lemma dec_facts (n : Z) :
  0 <= n ->
  has_space (dec n) = false /\ py_rstrip (dec n) = dec n /\ dec n <> EmptyString /\
  py_int_str (dec n) = Some n /\
  exists c s, dec n = String c s /\ py_isspace c = false /\ Ascii.eqb c "#"%char = false.
Proof.
  intros Hn. destruct (dec_digits n Hn) as (ds & Hds & Hne & Hf & Hv). rewrite Hds.
  destruct ds as [|d ds']; [congruence|].
  inversion Hf as [|? ? Hd _]; subst.
  destruct (digit_char_facts d Hd) as (Hsp & _ & Hm & Hp & Hh & _).
  split; [apply has_space_digits, Hf|].
  split; [apply rstrip_digits; assumption|].
  split; [discriminate|].
  split.
  - unfold py_int_str, py_strip. cbn [string_of_digits py_lstrip]. rewrite Hsp.
    change (String (digit_char d) (string_of_digits ds')) with (string_of_digits (d :: ds')).
    rewrite rstrip_digits by assumption. cbn [string_of_digits]. rewrite Hm, Hp.
    change (String (digit_char d) (string_of_digits ds')) with (string_of_digits (d :: ds')).
    rewrite int_digits_string_of_digits by assumption. reflexivity.
  - exists (digit_char d), (string_of_digits ds'). auto.
Qed.

Lemma location_token_facts (r c : ascii) :
  Ascii.eqb r " "%char = false -> Ascii.eqb c " "%char = false ->
  has_space (location_token r c) = false /\ location_token r c <> EmptyString /\
  deserialize_location (location_token r c) = Ok (String r EmptyString, String c EmptyString).
Proof.
  intros Hr Hc. unfold location_token. cbn [has_space]. rewrite Hr, Hc.
  split; [reflexivity | split; [discriminate | reflexivity]].
Qed.

(** A line that [strip] leaves alone and that is neither empty nor a
    comment is read as the tokens [split(" ")] gives. *)
Lemma create_event_list_cons_tokens (line : string) (rest : list string) :
  py_strip line = line -> skip_line line = false ->
  create_event_list (line :: rest) =
    match parse_tokens (py_split_space line) with
    | None => None
    | Some e =>
        match create_event_list rest with
        | None => None
        | Some es => Some (match e with Some ev => ev :: es | None => es end)
        end
    end.
Proof. intros Hs Hk. cbn [create_event_list]. rewrite Hs, Hk. reflexivity. Qed.

Lemma strip_line (c : ascii) (s b : string) :
  py_isspace c = false -> py_rstrip (String c s ++ b)%string = (String c s ++ b)%string ->
  py_strip (String c s ++ b)%string = (String c s ++ b)%string.
Proof. intros Hc Hr. unfold py_strip. cbn [append py_lstrip]. rewrite Hc. exact Hr. Qed.

(** [create_event_list] reads the lines one at a time: on a concatenation
    of line lists it returns the concatenation of the event lists, and
    raises as soon as one part raises. *)
Theorem create_event_list_app (l1 l2 : list string) :
  create_event_list (l1 ++ l2) =
    match create_event_list l1, create_event_list l2 with
    | Some a, Some b => Some (a ++ b)
    | _, _ => None
    end.
Proof.
  induction l1 as [|line l1 IH]; cbn [app create_event_list].
  - destruct (create_event_list l2); reflexivity.
  - destruct (skip_line (py_strip line)); [exact IH|].
    rewrite IH.
    destruct (parse_tokens _) as [[e|]|];
      destruct (create_event_list l1); destruct (create_event_list l2); reflexivity.
Qed.

(** Lines that are blank after stripping, lines starting with [#], and
    lines whose first token is an integer but whose second token is
    neither [DriverRequest] nor [RiderRequest] add no event.  Any other
    non-blank line without a space makes [create_event_list] raise (the
    missing [tokens[1]], or [int] of a non-number). *)
Theorem create_event_list_skipped_lines (line : string) (rest : list string) :
  ((py_strip line = EmptyString \/ (exists s, py_strip line = String "#"%char s) \/
    exists t0 ty toks, py_split_space (py_strip line) = t0 :: ty :: toks /\
      py_int_str t0 <> None /\ ty <> "DriverRequest"%string /\ ty <> "RiderRequest"%string) ->
   create_event_list (line :: rest) = create_event_list rest) /\
  (py_strip line <> EmptyString -> (forall s, py_strip line <> String "#"%char s) ->
   has_space (py_strip line) = false ->
   create_event_list (line :: rest) = None).
Proof.
  split.
  - intros H. cbn [create_event_list].
    destruct H as [He | [[s Hs] | (t0 & ty & toks & Ht & Hi & Hd & Hr)]].
    + rewrite He. reflexivity.
    + rewrite Hs. reflexivity.
    + destruct (skip_line (py_strip line)); [reflexivity|].
      rewrite Ht. unfold parse_tokens. cbn [nth_error].
      destruct (py_int_str t0); [|congruence].
      apply String.eqb_neq in Hd, Hr. rewrite Hd, Hr.
      destruct (create_event_list rest); reflexivity.
  - intros He Hh Hs. cbn [create_event_list].
    assert (Hk : skip_line (py_strip line) = false).
    { destruct (py_strip line) as [|c s] eqn:E; [congruence|].
      cbn [skip_line]. destruct (Ascii.eqb_spec c "#"%char) as [-> | Hc]; [|reflexivity].
      exfalso. exact (Hh s eq_refl). }
    rewrite Hk, (split_no_space _ Hs). unfold parse_tokens. cbn [nth_error].
    destruct (py_int_str _); reflexivity.
Qed.

Lemma create_event_list_skipped_lines_witness :
  create_event_list ["  # comment"; "5 Foo x"; "3 DriverRequest Sam 1,2 4"]%string =
    Some [ParsedDriverRequest 3 "Sam" ("1", "2") 4]%string /\
  create_event_list ["  # comment"%string] = create_event_list [] /\
  create_event_list ["5 Foo x"%string] = create_event_list [] /\
  create_event_list ["17"%string] = None.
Proof.
  split; [vm_compute; reflexivity|].
  split; [apply (proj1 (create_event_list_skipped_lines "  # comment"%string [])); right; left;
          exists " comment"%string; vm_compute; reflexivity|].
  split; [apply (proj1 (create_event_list_skipped_lines "5 Foo x"%string [])); right; right;
          exists "5"%string, "Foo"%string, ["x"%string];
          split; [vm_compute; reflexivity | split; [vm_compute; discriminate |
          split; discriminate]]|].
  apply (proj2 (create_event_list_skipped_lines "17"%string [])).
  - vm_compute. discriminate.
  - intros s. vm_compute. discriminate.
  - vm_compute. reflexivity.
Defined.

(** A request line written in the expected format is read back: a
    [DriverRequest] line [t DriverRequest id r,c speed] and a
    [RiderRequest] line [t RiderRequest id r,c r',c' patience], with
    non-negative integers, an identifier without spaces and coordinates
    that are not spaces, give the event with these fields, each coordinate
    kept as the one-character string; the lines after it are read as
    usual. *)
Theorem create_event_list_request_lines (t v : Z) (identifier : string) (r c r' c' : ascii)
    (rest : list string) :
  0 <= t -> 0 <= v -> has_space identifier = false ->
  Ascii.eqb r " "%char = false -> Ascii.eqb c " "%char = false ->
  Ascii.eqb r' " "%char = false -> Ascii.eqb c' " "%char = false ->
  create_event_list (driver_line t identifier r c v :: rest) =
    option_map (cons (ParsedDriverRequest t identifier
                        (String r EmptyString, String c EmptyString) v))
               (create_event_list rest) /\
  create_event_list (rider_line t identifier r c r' c' v :: rest) =
    option_map (cons (ParsedRiderRequest t identifier
                        (String r EmptyString, String c EmptyString)
                        (String r' EmptyString, String c' EmptyString) v))
               (create_event_list rest).
Proof.
  intros Ht Hv Hid Hr Hc Hr' Hc'.
  destruct (dec_facts t Ht) as (Hts & Htr & Htne & Hti & c0 & s0 & Hts0 & Hc0 & Hh0).
  destruct (dec_facts v Hv) as (Hvs & Hvr & Hvne & Hvi & _).
  destruct (location_token_facts r c Hr Hc) as (Hls & Hlne & Hld).
  destruct (location_token_facts r' c' Hr' Hc') as (Hls' & Hlne' & Hld').
  split.
  - unfold driver_line.
    rewrite create_event_list_cons_tokens;
      [| rewrite Hts0; apply strip_line; [exact Hc0|]; rewrite <- Hts0;
         refine (proj1 (_ : _ /\ _ <> EmptyString));
         repeat apply rstrip_app_ne; split; assumption
       | rewrite Hts0; exact Hh0].
    cbn [append]. rewrite split_app_space by exact Hts. cbn [py_split_space Ascii.eqb Bool.eqb].
    rewrite split_app_space by exact Hid.
    rewrite split_app_space by exact Hls.
    rewrite split_no_space by exact Hvs.
    unfold parse_tokens. cbn [nth_error]. rewrite Hti, Hld, Hvi.
    cbn [String.eqb]. destruct (create_event_list rest); reflexivity.
  - unfold rider_line.
    rewrite create_event_list_cons_tokens;
      [| rewrite Hts0; apply strip_line; [exact Hc0|]; rewrite <- Hts0;
         refine (proj1 (_ : _ /\ _ <> EmptyString));
         repeat apply rstrip_app_ne; split; assumption
       | rewrite Hts0; exact Hh0].
    cbn [append]. rewrite split_app_space by exact Hts. cbn [py_split_space Ascii.eqb Bool.eqb].
    rewrite split_app_space by exact Hid.
    rewrite split_app_space by exact Hls.
    rewrite split_app_space by exact Hls'.
    rewrite split_no_space by exact Hvs.
    unfold parse_tokens. cbn [nth_error]. rewrite Hti, Hld, Hld', Hvi.
    cbn [String.eqb]. destruct (create_event_list rest); reflexivity.
Qed.

Lemma create_event_list_request_lines_witness :
  driver_line 12 "Sam" "1" "2" 3 = "12 DriverRequest Sam 1,2 3"%string /\
  rider_line 12 "Sam" "1" "2" "6" "6" 3 = "12 RiderRequest Sam 1,2 6,6 3"%string /\
  create_event_list [driver_line 12 "Sam" "1" "2" 3] =
    Some [ParsedDriverRequest 12 "Sam" ("1", "2") 3]%string /\
  create_event_list [rider_line 12 "Sam" "1" "2" "6" "6" 3] =
    Some [ParsedRiderRequest 12 "Sam" ("1", "2") ("6", "6") 3]%string.
Proof.
  split; [vm_compute; reflexivity|]. split; [vm_compute; reflexivity|].
  exact (create_event_list_request_lines 12 3 "Sam" "1" "2" "6" "6" [] ltac:(lia) ltac:(lia)
           eq_refl eq_refl eq_refl eq_refl eq_refl).
Defined.

(** [Pickup.do]: the driver first arrives at its destination.  If the
    rider is in the cancelled list, nothing else changes and the driver
    requests a new rider at the same time.  Otherwise the driver starts the
    ride from there to the rider's destination, the rider is marked
    satisfied, the cancelled list is unchanged, and a [Dropoff] is due at
    the pickup time plus the travel time of the ride. *)
Theorem pickup_do_events (t : Z) (r d : nat) (w w' : World) (evs : list Event) :
  pickup_do t r d w = (w', evs) ->
  (rider_in w r (cancelled (dispatcher w)) = true ->
     evs = [DriverRequest t d] /\ drivers w' d = end_drive (drivers w d) /\
     riders w' = riders w /\ dispatcher w' = dispatcher w) /\
  (rider_in w r (cancelled (dispatcher w)) = false ->
     evs = [Dropoff (t + get_travel_time (end_drive (drivers w d))
                           (Some (r_destination (riders w r)))) r d] /\
     d_location (drivers w' d) = d_destination (drivers w d) /\
     d_destination (drivers w' d) = Some (r_destination (riders w r)) /\
     d_is_idle (drivers w' d) = false /\
     r_status (riders w' r) = SATISFIED /\
     cancelled (dispatcher w') = cancelled (dispatcher w)).
Proof.
  unfold pickup_do, end_successful_ride, rider_in.
  cbn [notify_w set_monitor set_driver set_rider set_dispatcher riders drivers dispatcher].
  destruct (py_in (riders w) rider_eqb r (cancelled (dispatcher w))) eqn:Hc; cbn [negb].
  - intros E. injection E as <- <-. split; [|discriminate].
    intros _. cbn [notify_w set_monitor set_driver riders drivers dispatcher].
    unfold upd. rewrite Nat.eqb_refl. repeat split.
  - intros E. split; [discriminate|]. intros _.
    cbn [notify_w set_monitor set_driver set_rider set_dispatcher riders drivers dispatcher] in E.
    unfold start_ride, upd in E. rewrite Nat.eqb_refl in E.
    injection E as <- <-.
    cbn [notify_w set_monitor set_driver set_rider set_dispatcher riders drivers dispatcher].
    unfold upd. rewrite !Nat.eqb_refl.
    split; [reflexivity|]. split; [reflexivity|]. split; [reflexivity|].
    split; [reflexivity|]. split; [reflexivity|].
    match goal with
    | |- context [if py_in ?h rider_eqb r ?l then _ else _] => destruct (py_in h rider_eqb r l)
    end; reflexivity.
Qed.

Lemma pickup_do_events_witness :
  rider_in sam_enroute_C 0 (cancelled (dispatcher sam_enroute_C)) = false /\
  snd (pickup_do 5 0 0 sam_enroute_C) = [Dropoff 10 0 0].
Proof.
  assert (Hc : rider_in sam_enroute_C 0 (cancelled (dispatcher sam_enroute_C)) = false)
    by (vm_compute; reflexivity).
  split; [exact Hc|].
  destruct (pickup_do_events 5 0 0 sam_enroute_C (fst (pickup_do 5 0 0 sam_enroute_C))
              (snd (pickup_do 5 0 0 sam_enroute_C)) eq_refl) as [_ H].
  rewrite (proj1 (H Hc)). vm_compute. reflexivity.
Defined.
